(** * dialog_parser: book dialogue attribution and audiobook chunking

    A shallow embedding of [main.py] (class [BookDialogParser]) and of
    [openaifm.py] (classes [OpenAIFMTTSGenerator] and [BookTTSProcessor]),
    with the properties of the specification proved over it.

    Python values are modelled as follows.
    - A [str] is the list of its Unicode code points ([list N]); [len] is the
      length of that list.
    - An [int] is a [Z].
    - A [float] is a primitive binary64 float.
    - The [set] of characters is a [gset], the configuration [dict] a [gmap].
    - The text-generation backend is an oracle: each request gets a reply
      value that records the answer or the failure.
    - The Unicode tables behind [str.upper], [str.lower], the class [\w] and
      matching with [re.IGNORECASE] are parameters from code point 128 on;
      ASCII is written out.
    - The speech service and the disk are oracles as well: the reply to each
      request and the outcome of each write are given, in the order of the
      requests; the output directory is a [gmap] from paths to contents.
    - The JSON file between the two programs is the value written to it. *)

From Stdlib Require Import ZArith NArith List Bool Lia Floats Sorted.
From Stdlib Require Import Ascii String DecimalFacts DecimalPos DecimalN.
From stdpp Require Import base list gmap.

Set Warnings "-inexact-float".
Local Open Scope N_scope.

(** ** Python strings *)

Abbreviation str := (list N) (only parsing).

(** An ASCII literal as a [str]. *)
Definition lit (s : string) : str :=
  map (fun a => N.of_nat (nat_of_ascii a)) (list_ascii_of_string s).

Definition len (s : str) : Z := Z.of_nat (length s).

Module Chr.
Definition newline : N := 10.
Definition space : N := 32.
Definition bang : N := 33.
Definition dquote : N := 34.       (* the straight double quote *)
Definition squote : N := 39.       (* the straight single quote *)
Definition hyphen : N := 45.
Definition dot : N := 46.
Definition zero : N := 48.
Definition question : N := 63.
Definition underscore : N := 95.
Definition en_dash : N := 0x2013.
Definition em_dash : N := 0x2014.
Definition left_dquote : N := 0x201C.  (* the curly double quotes *)
Definition right_dquote : N := 0x201D.
End Chr.

(** [str.isspace] for one code point, which is also the class [\s] of [re] on
    [str] patterns: the code points CPython's [_PyUnicode_IsWhitespace] lists. *)
Definition isspace (c : N) : bool :=
  ((9 <=? c) && (c <=? 13)) || ((28 <=? c) && (c <=? 32))
  || (c =? 0x85) || (c =? 0xA0) || (c =? 0x1680)
  || ((0x2000 <=? c) && (c <=? 0x200A))
  || (c =? 0x2028) || (c =? 0x2029) || (c =? 0x202F) || (c =? 0x205F)
  || (c =? 0x3000).

Definition is_empty (s : str) : bool :=
  match s with [] => true | _ => false end.

(** [s.lstrip()], [s.rstrip()] and [s.strip()]. *)
Fixpoint lstrip (s : str) : str :=
  match s with
  | [] => []
  | c :: s' => if isspace c then lstrip s' else s
  end.

Fixpoint rstrip (s : str) : str :=
  match s with
  | [] => []
  | c :: s' =>
      let r := rstrip s' in
      if isspace c && is_empty r then [] else c :: r
  end.

Definition strip (s : str) : str := rstrip (lstrip s).

(** Put [c] in front of the first piece of a list of pieces. *)
Definition cons_head (c : N) (pieces : list str) : list str :=
  match pieces with
  | [] => [[c]]
  | p :: ps => (c :: p) :: ps
  end.

(** [s.split(sep)] for a one-character separator. *)
Fixpoint split_on (sep : N) (s : str) : list str :=
  match s with
  | [] => [[]]
  | c :: s' => if c =? sep then [] :: split_on sep s' else cons_head c (split_on sep s')
  end.

(** [sep.join(parts)]. *)
Fixpoint join (sep : str) (parts : list str) : str :=
  match parts with
  | [] => []
  | [p] => p
  | p :: ps => p ++ sep ++ join sep ps
  end.

(** [c in s] and [s.startswith(c)] for a one-character [c]. *)
Definition contains (c : N) (s : str) : bool := existsb (N.eqb c) s.

Definition startswith (c : N) (s : str) : bool :=
  match s with
  | [] => false
  | x :: _ => x =? c
  end.

(** Python's slice [l[a:b]] with step 1: a negative bound counts from the end,
    and both bounds are clamped to the list. [None] stands for an omitted
    bound. *)
Definition slice_bound (n : Z) (i : Z) : Z :=
  if (i <? 0)%Z then Z.max 0 (i + n) else Z.min i n.

Definition slice {A} (l : list A) (a b : option Z) : list A :=
  let n := Z.of_nat (length l) in
  let lo := match a with Some i => slice_bound n i | None => 0%Z end in
  let hi := match b with Some i => slice_bound n i | None => n end in
  take (Z.to_nat (hi - lo)) (drop (Z.to_nat lo) l).

(** ** [main.py]: the candidate scanner *)

(** The test of lines 32-34 of [extract_potential_dialogue]. *)
Definition is_candidate (line : str) : bool :=
  contains Chr.dquote line || contains Chr.squote line
  || startswith Chr.dquote line || startswith Chr.squote line
  || contains Chr.em_dash line || contains Chr.en_dash line.

(** The loop [for i, line in enumerate(lines)], started at index [i]. *)
Fixpoint scan_lines (i : nat) (lines : list str) : list (str * Z) :=
  match lines with
  | [] => []
  | line :: rest =>
      let line := strip line in
      if is_empty line then scan_lines (S i) rest
      else if is_candidate line then (line, (Z.of_nat i + 1)%Z) :: scan_lines (S i) rest
      else scan_lines (S i) rest
  end.

Definition extract_potential_dialogue (text : str) : list (str * Z) :=
  scan_lines 0 (split_on Chr.newline text).

(** The simpler test: the line contains one of the four marker characters. *)
Definition has_marker (line : str) : bool :=
  contains Chr.dquote line || contains Chr.squote line
  || contains Chr.em_dash line || contains Chr.en_dash line.

Definition marker_chars : list N :=
  [Chr.dquote; Chr.squote; Chr.em_dash; Chr.en_dash].

(** The scanner the specification describes, which also accepts curly quotes. *)
Definition is_quote_char (c : N) : bool :=
  (c =? Chr.dquote) || (c =? Chr.squote)
  || ((0x2018 <=? c) && (c <=? 0x2019)) || ((0x201C <=? c) && (c <=? 0x201D)).

Definition spec_is_candidate (line : str) : bool :=
  existsb (fun c => is_quote_char c || (c =? Chr.em_dash) || (c =? Chr.en_dash)) line.

(** ** [main.py]: context window and speaker attribution *)

(** Lines 126-129 of [parse_book]: the lines around line [line_number]. *)
Definition context_window (all_lines : list str) (line_number : Z) : list str :=
  let start_idx := Z.max 0 (line_number - 4) in
  let end_idx := Z.min (Z.of_nat (length all_lines)) (line_number + 3) in
  List.filter (fun line => negb (is_empty line))
    (map strip (slice all_lines (Some start_idx) (Some end_idx))).

(** The lines of a document with their numbers, counted from [k]. *)
Fixpoint numbered_from (k : Z) (lines : list str) : list (Z * str) :=
  match lines with
  | [] => []
  | line :: rest => (k, line) :: numbered_from (k + 1) rest
  end.

(** The lines whose number, counted from 1, is between [lo] and [hi]. *)
Definition lines_between (all_lines : list str) (lo hi : Z) : list str :=
  map snd
    (List.filter (fun p => (lo <=? fst p)%Z && (fst p <=? hi)%Z) (numbered_from 1 all_lines)).

Definition trimmed_nonblank (lines : list str) : list str :=
  List.filter (fun line => negb (is_empty line)) (map strip lines).

(** The window the specification describes: 3 lines before the target line
    through 2 lines after it. *)
Definition spec_context_window (all_lines : list str) (line_number : Z) : list str :=
  trimmed_nonblank (lines_between all_lines (line_number - 3) (line_number + 2)).

(** Line 70 of [identify_speaker]: the lines put into the prompt. *)
Definition prompt_lines (dialogue_line : str) (context_lines : list str) : list str :=
  slice context_lines (Some (-3)%Z) None ++ [dialogue_line]
  ++ slice context_lines None (Some 2%Z).

Definition prompt_context (dialogue_line : str) (context_lines : list str) : str :=
  join [Chr.newline] (prompt_lines dialogue_line context_lines).

Definition quoted (s : string) : str := [Chr.dquote] ++ lit s ++ [Chr.dquote].

Definition prompt_head : str :=
  [Chr.newline]
  ++ lit "Analyze this text excerpt and identify who is speaking the dialogue in quotes."
  ++ [Chr.newline; Chr.newline] ++ lit "Text:" ++ [Chr.newline].

Definition prompt_tail : str :=
  [Chr.newline; Chr.newline] ++ lit "Instructions:" ++ [Chr.newline]
  ++ lit "- Look for the dialogue in quotation marks" ++ [Chr.newline]
  ++ lit "- Identify the speaker based on context clues (dialogue tags, narrative descriptions)"
  ++ [Chr.newline]
  ++ lit "- If no clear speaker is identified, respond with " ++ quoted "NARRATOR"
  ++ lit " for narrative text or " ++ quoted "UNKNOWN" ++ lit " for unclear dialogue"
  ++ [Chr.newline]
  ++ lit "- Respond with ONLY the character name or NARRATOR/UNKNOWN" ++ [Chr.newline]
  ++ lit "- Use consistent character names (e.g., always " ++ quoted "John"
  ++ lit " not " ++ quoted "John Smith" ++ lit " then " ++ quoted "John" ++ lit ")"
  ++ [Chr.newline; Chr.newline] ++ lit "Speaker:".

(** What one HTTP request to the text-generation backend comes to: a reply
    with a status code and, when the JSON body has one, its [response] field; or
    an exception (no connection, timeout, a body that is not JSON). *)
Inductive http_reply :=
| Replied (status_code : Z) (response : option str)
| Raised.

(** [query_ollama], given the outcome of its request. *)
Definition query_ollama (reply : http_reply) : str :=
  match reply with
  | Replied 200 response => strip (default [] response)
  | Replied _ _ => []
  | Raised => []
  end.

Record DialogueLine := mkDialogueLine {
  text : str;
  speaker : str;
  line_number : Z;
  confidence : float;
}.

(** [s in l] for a list [l] of strings. *)
Definition in_list (s : str) (l : list str) : bool := bool_decide (s ∈ l).

(** The two confidence values of [identify_speaker], the floats Python reads
    from the literals [0.8] and [0.3]. *)
Definition high_confidence : float := 0.8%float.
Definition low_confidence : float := 0.3%float.

Section Attribution.

(** [str.upper] maps each code point on its own. The ASCII letters are mapped
    here; [unicode_upper] is the full upper-case mapping of the Unicode
    database for the code points from 128 on. *)
Variable unicode_upper : N -> list N.

Definition upper_char (c : N) : list N :=
  if c <? 128 then [if (97 <=? c) && (c <=? 122) then c - 32 else c]
  else unicode_upper c.

Definition upper (s : str) : str := flat_map upper_char s.

(** The normalized label of an attribution: the backend's answer to the
    prompt, trimmed and upper-cased (lines 87-90 of [identify_speaker]). *)
Definition attributed_label (backend : str -> http_reply) (dialogue_line : str)
    (context_lines : list str) : str :=
  upper (strip (query_ollama
    (backend (prompt_head ++ prompt_context dialogue_line context_lines ++ prompt_tail)))).

(** [identify_speaker]: [backend] answers the request for a prompt, and
    [characters] is [self.characters], returned updated. *)
Definition identify_speaker (backend : str -> http_reply) (characters : gset (list N))
    (dialogue_line : str) (context_lines : list str) : (str * float) * gset (list N) :=
  let context := prompt_context dialogue_line context_lines in
  let prompt := prompt_head ++ context ++ prompt_tail in
  let response := query_ollama (backend prompt) in
  let speaker := upper (strip response) in
  let confidence :=
    if negb (in_list speaker [lit "UNKNOWN"; lit "NARRATOR"])
    then high_confidence else low_confidence in
  let characters :=
    if negb (in_list speaker [lit "UNKNOWN"; lit "NARRATOR"; []])
    then {[ speaker ]} ∪ characters else characters in
  ((speaker, confidence), characters).

(** The loop of [parse_book] over the candidates, from candidate [i] on.
    [backend i] answers the request made for candidate [i]. *)
Fixpoint attribute_lines (backend : nat -> str -> http_reply) (all_lines : list str)
    (i : nat) (dialogue_candidates : list (str * Z)) (characters : gset (list N))
    : list DialogueLine * gset (list N) :=
  match dialogue_candidates with
  | [] => ([], characters)
  | (dialogue_line, line_number) :: rest =>
      let context_lines := context_window all_lines line_number in
      let '((speaker, confidence), characters) :=
        identify_speaker (backend i) characters dialogue_line context_lines in
      let '(dialogue_results, characters) :=
        attribute_lines backend all_lines (S i) rest characters in
      (mkDialogueLine dialogue_line speaker line_number confidence :: dialogue_results,
       characters)
  end.

(** [parse_book]: [file] is the content read from [file_path], or [None] when
    reading failed. *)
Definition parse_book (backend : nat -> str -> http_reply) (file : option str)
    (characters : gset (list N)) : list DialogueLine * gset (list N) :=
  match file with
  | None => ([], characters)
  | Some text =>
      let dialogue_candidates := extract_potential_dialogue text in
      let all_lines := split_on Chr.newline text in
      attribute_lines backend all_lines 0 dialogue_candidates characters
  end.

End Attribution.

(** A label that names a character: neither sentinel, and not empty. *)
Definition is_character (s : str) : Prop :=
  s <> lit "UNKNOWN" /\ s <> lit "NARRATOR" /\ s <> [].

(** ** [openaifm.py]: the chunker *)

(** [re.split(r'(?<=[.!?])\s+', text)]. A match is a maximal run of whitespace
    whose first character comes right after ['.'], ['!'] or ['?']: a match cannot
    start inside a run, since the character before it must be one of the three
    marks. The scan keeps where it is: after a mark, inside a sentence, or inside
    a separator. *)
Inductive scan_mode := AfterMark | InSentence | InSeparator.

Definition is_mark (c : N) : bool :=
  (c =? Chr.dot) || (c =? Chr.bang) || (c =? Chr.question).

Fixpoint split_scan (m : scan_mode) (s : str) : list str :=
  match s with
  | [] => [[]]
  | c :: s' =>
      if isspace c then
        match m with
        | AfterMark => [] :: split_scan InSeparator s'
        | InSeparator => split_scan InSeparator s'
        | InSentence => cons_head c (split_scan InSentence s')
        end
      else cons_head c (split_scan (if is_mark c then AfterMark else InSentence) s')
  end.

Definition split_sentences (text : str) : list str := split_scan InSentence text.

Definition ends_with_mark (s : str) : Prop :=
  exists p c, s = p ++ [c] /\ is_mark c = true.

(** [sentence_split text sentences]: [text] is the sentences in order, each
    one but the last ending in a mark and followed by a maximal, non-empty run
    of whitespace that is in no sentence. *)
Inductive sentence_split : str -> list str -> Prop :=
| split_last s : sentence_split s [s]
| split_next s w rest ss :
    ends_with_mark s -> w <> [] -> forallb isspace w = true -> lstrip rest = rest ->
    sentence_split rest ss -> sentence_split (s ++ w ++ rest) (s :: ss).

(** Put the characters [p] in front of the first piece. *)
Definition prepend (p : str) (pieces : list str) : list str :=
  match pieces with
  | [] => [p]
  | x :: xs => (p ++ x) :: xs
  end.

(** One turn of the loop [for sentence in sentences] of [chunk_text]. *)
Definition chunk_step (max_length : Z) (st : list str * str) (sentence : str)
    : list str * str :=
  let '(chunks, current_chunk) := st in
  if (len current_chunk + len sentence + 1 <=? max_length)%Z
  then (chunks, current_chunk ++ sentence ++ [Chr.space])
  else ((if is_empty current_chunk then chunks else chunks ++ [strip current_chunk]),
        sentence ++ [Chr.space]).

Definition flush_chunk (st : list str * str) : list str :=
  let '(chunks, current_chunk) := st in
  if is_empty current_chunk then chunks else chunks ++ [strip current_chunk].

Definition chunk_text (text : str) (max_length : Z) : list str :=
  if (len text <=? max_length)%Z then [text]
  else flush_chunk (fold_left (chunk_step max_length) (split_sentences text) ([], [])).

(** The value of [current_chunk] after the sentences of [g] went into it. *)
Definition pack (g : list str) : str :=
  concat (map (fun s => s ++ [Chr.space]) g).

(** A group of sentences that the loop may turn into one chunk: it fits, or it
    is one sentence that does not fit on its own. *)
Definition group_ok (max_length : Z) (g : list str) : Prop :=
  g <> [] /\
  ((len (pack g) <= max_length)%Z \/ exists s, g = [s] /\ (max_length < len s + 1)%Z).

(** The invariant of the loop of [chunk_text] once the sentences [done] are
    processed: the chunks are the closed groups, [current_chunk] the open one. *)
Definition packing (max_length : Z) (done : list str) (st : list str * str) : Prop :=
  exists groups cur,
    concat groups ++ cur = done /\
    st.1 = map (fun g => strip (pack g)) groups /\
    st.2 = pack cur /\
    Forall (group_ok max_length) groups /\
    (cur = [] \/ group_ok max_length cur).

(** A place inside [s] where [re.split] would cut: a mark with whitespace
    right after it. *)
Fixpoint has_boundary (s : str) : bool :=
  match s with
  | [] => false
  | c :: s' =>
      match s' with
      | [] => false
      | c' :: _ => (is_mark c && isspace c') || has_boundary s'
      end
  end.

(** Greedy groups: the first sentence of a group did not fit into the group
    before it, by the test [len(current_chunk) + len(sentence) + 1 <= max_length]. *)
Definition greedy (max_length : Z) (groups : list (list str)) : Prop :=
  forall i g s rest,
    groups !! i = Some g -> groups !! S i = Some (s :: rest) ->
    (max_length < len (pack g) + len s + 1)%Z.

(** The invariant of the loop with the greedy choice: the closed groups and
    the open one are greedy, and no group is closed before one is open. *)
Definition greedy_packing (max_length : Z) (done : list str) (st : list str * str) : Prop :=
  exists groups cur,
    concat groups ++ cur = done /\
    st.1 = map (fun g => strip (pack g)) groups /\
    st.2 = pack cur /\
    Forall (group_ok max_length) groups /\
    (cur = [] \/ group_ok max_length cur) /\
    (cur = [] -> groups = []) /\
    greedy max_length (groups ++ [cur]).

(** Whitespace collapsing, as line 91 of [clean_text_for_tts] does it:
    [re.sub(r'\s+', ' ', text).strip()]. [squeeze in_run s] replaces every run
    of whitespace by one space; [in_run] tells that the run has begun. *)
Fixpoint squeeze (in_run : bool) (s : str) : str :=
  match s with
  | [] => []
  | c :: s' =>
      if isspace c then (if in_run then squeeze true s' else Chr.space :: squeeze true s')
      else c :: squeeze false s'
  end.

Definition collapse_whitespace (s : str) : str := strip (squeeze false s).

(** [s.split()]: the maximal runs of characters that are not whitespace. *)
Fixpoint words (s : str) : list str :=
  match s with
  | [] => []
  | c :: s' =>
      if isspace c then words s'
      else match s' with
           | [] => [[c]]
           | c' :: _ => if isspace c' then [c] :: words s' else cons_head c (words s')
           end
  end.

(** ** [openaifm.py]: voice configuration *)

Record TTSConfig := mkTTSConfig {
  voice : str;
  prompt : str;
  speed : float;
}.

Definition fallback_config : TTSConfig := mkTTSConfig (lit "alloy") [] 1.0%float.

(** One entry of [character_voices] in the configuration file, and its
    [default] entry; [prompt] and [speed] are optional there. *)
Record voice_entry := mkVoiceEntry {
  entry_character : str;
  entry_voice : str;
  entry_prompt : option str;
  entry_speed : option float;
}.

Definition entry_config (e : voice_entry) : TTSConfig :=
  mkTTSConfig (entry_voice e) (default [] (entry_prompt e)) (default 1.0%float (entry_speed e)).

Section Voices.

Variable unicode_upper : N -> list N.

(** [load_config], given the parsed file: the entries of [character_voices]
    and the [default] entry when there is one. [None] stands for a file that
    could not be read or parsed. *)
Definition load_config (config_data : option (list voice_entry * option voice_entry))
    : gmap (list N) TTSConfig :=
  match config_data with
  | None => ∅
  | Some (character_voices, default_config) =>
      let character_configs :=
        fold_left
          (fun m e => <[ upper unicode_upper (entry_character e) := entry_config e ]> m)
          character_voices ∅ in
      match default_config with
      | Some d => <[ lit "DEFAULT" := entry_config d ]> character_configs
      | None => character_configs
      end
  end.

(** The entry of [character_voices] that [load_config] keeps for the key [k]:
    the last one whose upper-cased character is [k]. *)
Definition last_entry_for (k : str) (entries : list voice_entry) : option voice_entry :=
  find (fun e => bool_decide (upper unicode_upper (entry_character e) = k)) (rev entries).

(** [get_character_config], with [config] for [self.config]. *)
Definition get_character_config (config : gmap (list N) TTSConfig) (speaker : str)
    : TTSConfig :=
  let speaker := upper unicode_upper speaker in
  match config !! speaker with
  | Some c => c
  | None =>
      match config !! lit "DEFAULT" with
      | Some c => c
      | None => fallback_config
      end
  end.

End Voices.

(** ** [openaifm.py]: file names *)

Fixpoint uint_chars (d : Decimal.uint) : str :=
  match d with
  | Decimal.Nil => []
  | Decimal.D0 d => 48 :: uint_chars d
  | Decimal.D1 d => 49 :: uint_chars d
  | Decimal.D2 d => 50 :: uint_chars d
  | Decimal.D3 d => 51 :: uint_chars d
  | Decimal.D4 d => 52 :: uint_chars d
  | Decimal.D5 d => 53 :: uint_chars d
  | Decimal.D6 d => 54 :: uint_chars d
  | Decimal.D7 d => 55 :: uint_chars d
  | Decimal.D8 d => 56 :: uint_chars d
  | Decimal.D9 d => 57 :: uint_chars d
  end.

(** The decimal digits of a natural number, without leading zeros. *)
Definition decimal (n : N) : str := uint_chars (N.to_uint n).

(** The format [{z:0<width>d}]: a minus sign for a negative number, then zeros
    up to [width] characters in all, then the digits. *)
Definition format_d (width : nat) (z : Z) : str :=
  let sign := if (z <? 0)%Z then [Chr.hyphen] else [] in
  let digits := decimal (Z.abs_N z) in
  sign ++ replicate (width - length sign - length digits) Chr.zero ++ digits.

Definition is_digit (c : N) : bool := (48 <=? c) && (c <=? 57).

(** What the file name has between the speaker and the extension. *)
Definition chunk_suffix (chunk_index : Z) : str :=
  if (0 <? chunk_index)%Z then lit "_chunk_" ++ format_d 2 chunk_index else [].

Definition ascii_alnum (c : N) : bool :=
  ((48 <=? c) && (c <=? 57)) || ((65 <=? c) && (c <=? 90)) || ((97 <=? c) && (c <=? 122)).

Section Filenames.

(** The class [\w] of [re] on a [str] pattern is Unicode-aware: the
    alphanumeric code points and the underscore. [unicode_alnum] is
    [str.isalnum] for the code points from 128 on. *)
Variable unicode_alnum : N -> bool.

Definition is_word (c : N) : bool :=
  if c <? 128 then ascii_alnum c || (c =? Chr.underscore) else unicode_alnum c.

(** [re.sub(r'[^\w\-_]', '_', speaker)], one character at a time. *)
Definition safe_char (c : N) : N :=
  if is_word c || (c =? Chr.hyphen) || (c =? Chr.underscore) then c else Chr.underscore.

Definition generate_filename (speaker : str) (line_number : Z) (chunk_index : Z) : str :=
  let safe_speaker := map safe_char speaker in
  if (chunk_index >? 0)%Z
  then format_d 4 line_number ++ lit "_" ++ safe_speaker ++ lit "_chunk_"
       ++ format_d 2 chunk_index ++ lit ".mp3"
  else format_d 4 line_number ++ lit "_" ++ safe_speaker ++ lit ".mp3".

End Filenames.

(** The sanitisation the specification describes: everything outside
    [[A-Za-z0-9_-]] becomes an underscore. *)
Definition spec_safe_char (c : N) : N :=
  if ascii_alnum c || (c =? Chr.underscore) || (c =? Chr.hyphen) then c else Chr.underscore.

Definition spec_filename (speaker : str) (line_number : Z) (chunk_index : Z) : str :=
  format_d 4 line_number ++ lit "_" ++ map spec_safe_char speaker
  ++ chunk_suffix chunk_index ++ lit ".mp3".

(** [str.isalnum] on the Latin-1 supplement (U+0080 to U+00FF); the tables
    beyond are not reproduced, so this is used on Latin-1 text only. *)
Definition latin1_alnum (c : N) : bool :=
  (c =? 0xAA) || (c =? 0xB2) || (c =? 0xB3) || (c =? 0xB5) || (c =? 0xB9) || (c =? 0xBA)
  || ((0xBC <=? c) && (c <=? 0xBE))
  || ((0xC0 <=? c) && (c <=? 0xD6)) || ((0xD8 <=? c) && (c <=? 0xF6))
  || ((0xF8 <=? c) && (c <=? 0xFF)).

(** ** [main.py]: the summary *)

(** Python's order on strings: by code points, a proper prefix first. *)
Fixpoint str_ltb (a b : str) : bool :=
  match a, b with
  | _, [] => false
  | [], _ :: _ => true
  | x :: a', y :: b' => if x <? y then true else if y <? x then false else str_ltb a' b'
  end.

(** [sorted(l, key=...)], a stable sort: [before y x] tells that [y] has a
    smaller key than [x]. An element goes in front of the first element that
    is not before it. *)
Fixpoint insert_sorted {A} (before : A -> A -> bool) (x : A) (l : list A) : list A :=
  match l with
  | [] => [x]
  | y :: l' => if before y x then y :: insert_sorted before x l' else x :: l
  end.

Definition py_sorted {A} (before : A -> A -> bool) (l : list A) : list A :=
  foldr (insert_sorted before) [] l.

(** [sum(1 for dl in dialogue_lines if p(dl))]. *)
Definition count_lines (p : DialogueLine -> bool) (dialogue_lines : list DialogueLine) : nat :=
  length (List.filter p dialogue_lines).

(** What [print_summary] prints: the number of lines, the number of
    characters, for each character in sorted order its number of lines, and the
    three confidence counts. *)
Record summary_report := mkSummaryReport {
  report_lines : nat;
  report_characters : nat;
  report_character_lines : list (str * nat);
  report_high : nat;
  report_medium : nat;
  report_low : nat;
}.

Definition print_summary (characters : gset (list N)) (dialogue_lines : list DialogueLine)
    : summary_report :=
  mkSummaryReport
    (length dialogue_lines)
    (size characters)
    (map (fun char => (char, count_lines (fun dl => bool_decide (speaker dl = char))
                               dialogue_lines))
         (py_sorted str_ltb (elements characters)))
    (count_lines (fun dl => PrimFloat.ltb 0.7%float (confidence dl)) dialogue_lines)
    (count_lines (fun dl => PrimFloat.ltb 0.3%float (confidence dl)
                            && PrimFloat.leb (confidence dl) 0.7%float) dialogue_lines)
    (count_lines (fun dl => PrimFloat.leb (confidence dl) 0.3%float) dialogue_lines).

(** ** [main.py]: the saved results *)

(** The JSON object [save_results] writes. [list(self.characters)] comes in the
    order of the set, which Python does not fix; the model takes the order of
    [elements]. *)
Record saved_line := mkSavedLine {
  saved_line_number : Z;
  saved_speaker : str;
  saved_text : str;
  saved_confidence : float;
}.

Record saved_results := mkSavedResults {
  saved_characters : list str;
  total_dialogue_lines : nat;
  saved_dialogue : list saved_line;
}.

Definition save_results (characters : gset (list N)) (dialogue_lines : list DialogueLine)
    : saved_results :=
  mkSavedResults (elements characters) (length dialogue_lines)
    (map (fun dl => mkSavedLine (line_number dl) (speaker dl) (text dl) (confidence dl))
       dialogue_lines).

(** ** [openaifm.py]: cleaning the text *)

Definition is_quote (c : N) : bool := (c =? Chr.dquote) || (c =? Chr.squote).

(** The characters of a text that are not whitespace. *)
Definition visible (s : str) : str := List.filter (fun c => negb (isspace c)) s.

(** A word: not empty, and without whitespace. *)
Definition is_word_of (w : str) : Prop :=
  w <> [] /\ forallb (fun c => negb (isspace c)) w = true.

(** [re.sub(r'^["\']|["\']$', '', t)] for a trimmed [t]: a quote at the start
    is removed, and so is a quote at the end. On a trimmed string [$] matches at
    the end only, since the string does not end in a newline; a quote that is
    both the first and the last character is removed once. *)
Definition drop_last_quote (t : str) : str :=
  match reverse t with
  | c :: r => if is_quote c then reverse r else t
  | [] => []
  end.

Definition strip_quotes (t : str) : str :=
  match t with
  | c :: r => if is_quote c then drop_last_quote r else drop_last_quote t
  | [] => []
  end.

(** [re.sub(pattern, '', s)] for a pattern that matches no empty string.
    [matcher s] is the length of the match of the pattern at the start of [s],
    if there is one; [skip] counts the characters of the current match that are
    still to be dropped. *)
Fixpoint re_delete (matcher : str -> option nat) (skip : nat) (s : str) : str :=
  match s with
  | [] => []
  | c :: s' =>
      match skip with
      | S k => re_delete matcher k s'
      | O =>
          match matcher s with
          | Some (S n) => re_delete matcher n s'
          | _ => c :: re_delete matcher O s'
          end
      end
  end.

(** The length of the longest prefix of [s] whose characters are in the class. *)
Fixpoint span (class : N -> bool) (s : str) : nat :=
  match s with
  | c :: s' => if class c then S (span class s') else O
  | [] => O
  end.

(** A leading [\s*] in front of the rest [m] of a pattern: greedy, and giving
    back one character at a time when the rest does not match. *)
Fixpoint after_spaces (m : str -> option nat) (s : str) : option nat :=
  match s with
  | c :: s' =>
      if isspace c
      then match after_spaces m s' with
           | Some n => Some (S n)
           | None => m s
           end
      else m s
  | [] => m []
  end.

Definition ascii_lower (c : N) : N := if (65 <=? c) && (c <=? 90) then c + 32 else c.

Definition is_lower_letter (c : N) : bool := (97 <=? c) && (c <=? 122).

Definition lower_letters : list N := map N.of_nat (seq 97 26).

Section Cleaning.

(** Matching with [re.IGNORECASE]: [unicode_fold p c] tells that the
    character [c], from code point 128 on, matches the lower-case ASCII letter
    [p] of a pattern. An ASCII character matches [p] when its lower-case form is
    [p]; a space of a pattern matches a space only. *)
Variable unicode_fold : N -> N -> bool.

Definition matches_ignorecase (p c : N) : bool :=
  if c <? 128 then ascii_lower c =? p
  else is_lower_letter p && unicode_fold p c.

(** The class [[A-Za-z]] with [re.IGNORECASE]: what matches some letter. *)
Definition letter_ignorecase (c : N) : bool :=
  existsb (fun p => matches_ignorecase p c) lower_letters.

(** The text [pat] at the start of [s]: what is left of [s] after it. *)
Fixpoint match_literal (pat : str) (s : str) : option str :=
  match pat with
  | [] => Some s
  | p :: pat' =>
      match s with
      | c :: s' => if matches_ignorecase p c then match_literal pat' s' else None
      | [] => None
      end
  end.

(** [\s*tag\s*] at the start of [s], for one of the three tags of line 87. *)
Definition match_tag (tag : str) (s : str) : option nat :=
  after_spaces
    (fun s => match match_literal tag s with
              | Some rest => Some (length tag + span isspace rest)%nat
              | None => None
              end) s.

(** [\s*he said\s*|\s*she said\s*|\s*they said\s*]: the first alternative
    that matches. *)
Definition match_said_tags (s : str) : option nat :=
  match match_tag (lit "he said") s with
  | Some n => Some n
  | None =>
      match match_tag (lit "she said") s with
      | Some n => Some n
      | None => match_tag (lit "they said") s
      end
  end.

(** [\s*said [A-Za-z]+\s*] at the start of [s]. *)
Definition match_said_name (s : str) : option nat :=
  after_spaces
    (fun s => match match_literal (lit "said ") s with
              | Some rest =>
                  match span letter_ignorecase rest with
                  | O => None
                  | S k => Some (length (lit "said ") + S k + span isspace (drop (S k) rest))%nat
                  end
              | None => None
              end) s.

Definition clean_text_for_tts (text : str) : str :=
  let text := strip_quotes (strip text) in
  let text := re_delete match_said_tags 0 text in
  let text := re_delete match_said_name 0 text in
  collapse_whitespace text.

(** A text in which no character counts as the letter [s] when a pattern is
    matched with [IGNORECASE]. *)
Definition no_s (s : str) : Prop :=
  Forall (fun c => matches_ignorecase 115 c = false) s.

End Cleaning.

(** ** [openaifm.py]: paths and the two effects *)

Definition slash : N := 47.

(** [str(output_dir / name)] for the string [dir] of the path [output_dir] and
    a file name without a slash: the path of the current directory is ["."],
    the root ends in a slash, and any other path gets one. *)
Definition joinpath (dir name : str) : str :=
  if bool_decide (dir = lit ".") then name
  else match reverse dir with
       | c :: _ => if c =? slash then dir ++ name else dir ++ [slash] ++ name
       | [] => name
       end.

(** [os.path.basename]: what follows the last slash. *)
Fixpoint basename (path : str) : str :=
  match path with
  | [] => []
  | c :: rest =>
      if contains slash rest then basename rest
      else if c =? slash then rest else path
  end.

Abbreviation bytes := (list Byte.byte) (only parsing).

(** The JSON payload of a speech request: the model is always [tts-1-hd], and
    the prompt is there when it is not empty. *)
Record tts_request := mkRequest {
  request_input : str;
  request_voice : str;
  request_speed : float;
  request_prompt : option str;
}.

(** What one request to the speech backend comes to: a response with a status
    code and a body, or an exception. *)
Inductive tts_reply :=
| Answered (status_code : Z) (content : list Byte.byte)
| Failed.

(** What writing a file comes to: the file holds the data, or an exception
    was raised, before the file existed ([None]) or leaving some content
    behind. *)
Inductive save_outcome :=
| Written
| NotWritten (left_behind : option (list Byte.byte)).

(** [save_audio]: the files after it, and the boolean it returns. *)
Definition save_audio (outcome : save_outcome) (audio_data : list Byte.byte) (file_path : str)
    (files : gmap (list N) (list Byte.byte)) : gmap (list N) (list Byte.byte) * bool :=
  match outcome with
  | Written => (<[ file_path := audio_data ]> files, true)
  | NotWritten (Some partial) => (<[ file_path := partial ]> files, false)
  | NotWritten None => (files, false)
  end.

Record AudioFile := mkAudioFile {
  file_path : str;
  audio_speaker : str;
  audio_line_number : Z;
  audio_text : str;
  duration : option float;
}.

(** One entry of the [dialogue] array of the dialogue file. *)
Record dialogue_entry := mkDialogueEntry {
  entry_speaker : str;
  entry_line_number : Z;
  entry_text : str;
}.

(** The state a run of [process_dialogue_file] works on: the files of the
    output directory by path, the requests sent so far, and [generated_files]. *)
Record tts_state := mkTtsState {
  files : gmap (list N) (list Byte.byte);
  requests : list tts_request;
  generated_files : list AudioFile;
}.

(** ** [openaifm.py]: synthesis *)

(** What [generate_audio] returns for a reply: the body of a response with
    status 200, and [None] otherwise. *)
Definition audio_of_reply (reply : tts_reply) : option (list Byte.byte) :=
  match reply with
  | Answered status_code content => if (status_code =? 200)%Z then Some content else None
  | Failed => None
  end.

(** A planned chunk whose file is not among [files]. *)
Definition missing (files : gmap (list N) (list Byte.byte))
    (planned : AudioFile * tts_request) : bool :=
  negb (bool_decide (is_Some (files !! file_path planned.1))).

Section Synthesis.

(** [str.lower], for the voice name. *)
Variable lower : list N -> list N.

(** The payload [generate_audio] builds. *)
Definition tts_payload (chunk voice prompt : str) (speed : float) : tts_request :=
  mkRequest chunk (lower voice) speed (if is_empty prompt then None else Some prompt).

(** [generate_audio]: [backend] answers the request. *)
Definition generate_audio (backend : tts_request -> tts_reply)
    (chunk voice prompt : str) (speed : float) : option (list Byte.byte) :=
  audio_of_reply (backend (tts_payload chunk voice prompt speed)).

Variable unicode_upper : N -> list N.
Variable unicode_alnum : N -> bool.
Variable unicode_fold : N -> N -> bool.

(** [self.config], the string of [self.output_dir], and the outside world:
    [tts k] answers the request sent after [k] earlier ones, and [disk k] is the
    outcome of saving its audio. *)
Variable config : gmap (list N) TTSConfig.
Variable output_dir : list N.
Variable tts : nat -> tts_request -> tts_reply.
Variable disk : nat -> save_outcome.

(** The body of the loop over the chunks of one dialogue line. *)
Definition process_chunk (speaker : str) (line_number : Z) (char_config : TTSConfig)
    (chunk_index : nat) (chunk : str) (st : tts_state) : tts_state :=
  let filename := generate_filename unicode_alnum speaker line_number (Z.of_nat chunk_index) in
  let path := joinpath output_dir filename in
  let record := mkAudioFile path speaker line_number chunk None in
  if bool_decide (is_Some (files st !! path))
  then mkTtsState (files st) (requests st) (generated_files st ++ [record])
  else
    let k := length (requests st) in
    let request :=
      tts_payload chunk (voice char_config) (prompt char_config) (speed char_config) in
    let sent := requests st ++ [request] in
    match generate_audio (tts k) chunk (voice char_config) (prompt char_config)
            (speed char_config) with
    | Some (b :: audio_data) =>
        let '(files', saved) := save_audio (disk k) (b :: audio_data) path (files st) in
        mkTtsState files' sent
          (if saved then generated_files st ++ [record] else generated_files st)
    | Some [] => mkTtsState (files st) sent (generated_files st)
    | None => mkTtsState (files st) sent (generated_files st)
    end.

(** [for chunk_index, chunk_text in enumerate(text_chunks)], from [chunk_index] on. *)
Fixpoint process_chunks (speaker : str) (line_number : Z) (char_config : TTSConfig)
    (chunk_index : nat) (text_chunks : list str) (st : tts_state) : tts_state :=
  match text_chunks with
  | [] => st
  | chunk :: rest =>
      process_chunks speaker line_number char_config (S chunk_index) rest
        (process_chunk speaker line_number char_config chunk_index chunk st)
  end.

(** [for dialogue in dialogue_lines]. *)
Fixpoint process_lines (dialogue_lines : list dialogue_entry) (st : tts_state) : tts_state :=
  match dialogue_lines with
  | [] => st
  | dialogue :: rest =>
      let clean_text := clean_text_for_tts unicode_fold (entry_text dialogue) in
      if is_empty (strip clean_text) then process_lines rest st
      else
        let char_config := get_character_config unicode_upper config (entry_speaker dialogue) in
        let text_chunks := chunk_text clean_text 4000 in
        process_lines rest
          (process_chunks (entry_speaker dialogue) (entry_line_number dialogue) char_config
             0 text_chunks st)
  end.

(** [process_dialogue_file], for a run in which the output directory can be
    made: [dialogue_data] is [None] when the dialogue file cannot be loaded, and
    holds the [dialogue] array of the file when it has one; [files0] are the
    files present before. The list returned is [generated_files] of the result. *)
Definition process_dialogue_file (dialogue_data : option (option (list dialogue_entry)))
    (files0 : gmap (list N) (list Byte.byte)) : tts_state :=
  match dialogue_data with
  | None => mkTtsState files0 [] []
  | Some dialogue =>
      let dialogue_lines := default [] dialogue in
      process_lines dialogue_lines (mkTtsState files0 [] [])
  end.

(** One chunk of a run, given as the record and the request the loop makes
    for it: what [process_chunk] does with it. *)
Definition synthesize (st : tts_state) (planned : AudioFile * tts_request) : tts_state :=
  let '(record, request) := planned in
  if bool_decide (is_Some (files st !! file_path record))
  then mkTtsState (files st) (requests st) (generated_files st ++ [record])
  else
    let k := length (requests st) in
    let sent := requests st ++ [request] in
    match audio_of_reply (tts k request) with
    | Some (b :: audio_data) =>
        let '(files', saved) :=
          save_audio (disk k) (b :: audio_data) (file_path record) (files st) in
        mkTtsState files' sent
          (if saved then generated_files st ++ [record] else generated_files st)
    | Some [] => mkTtsState (files st) sent (generated_files st)
    | None => mkTtsState (files st) sent (generated_files st)
    end.

(** The chunks a run goes through, in order, each as the record and the
    request the loop makes for it. *)
Definition planned_chunks (dialogue : dialogue_entry) : list (AudioFile * tts_request) :=
  let clean_text := clean_text_for_tts unicode_fold (entry_text dialogue) in
  if is_empty (strip clean_text) then []
  else
    let char_config := get_character_config unicode_upper config (entry_speaker dialogue) in
    imap (fun chunk_index chunk =>
            (mkAudioFile
               (joinpath output_dir
                  (generate_filename unicode_alnum (entry_speaker dialogue)
                     (entry_line_number dialogue) (Z.of_nat chunk_index)))
               (entry_speaker dialogue) (entry_line_number dialogue) chunk None,
             tts_payload chunk (voice char_config) (prompt char_config) (speed char_config)))
         (chunk_text clean_text 4000).

Definition plan (dialogue_lines : list dialogue_entry) : list (AudioFile * tts_request) :=
  concat (map planned_chunks dialogue_lines).

End Synthesis.

(** What [process_dialogue_file] loads from the file [save_results] wrote: the
    [dialogue] array, of which it reads the speaker, the line number and the
    text of each entry. *)
Definition load_dialogue (results : saved_results) : option (option (list dialogue_entry)) :=
  Some (Some (map (fun dialogue => mkDialogueEntry (saved_speaker dialogue)
                                     (saved_line_number dialogue) (saved_text dialogue))
                (saved_dialogue results))).

(** ** [openaifm.py]: playlist and summary *)

(** [str(z)] for an integer. *)
Definition str_of_int (z : Z) : str := format_d 0 z.

Definition before_in_playlist (a b : AudioFile) : bool :=
  (audio_line_number a <? audio_line_number b)%Z.

Definition playlist_entry (audio_file : AudioFile) : str :=
  lit "#EXTINF:-1," ++ audio_speaker audio_file ++ lit " - Line "
  ++ str_of_int (audio_line_number audio_file) ++ [Chr.newline]
  ++ basename (file_path audio_file) ++ [Chr.newline].

(** [create_playlist]: the text written to the playlist file. *)
Definition create_playlist (audio_files : list AudioFile) : str :=
  lit "#EXTM3U" ++ [Chr.newline]
  ++ concat (map playlist_entry (py_sorted before_in_playlist audio_files)).

Record summary_file := mkSummaryFile {
  summary_filename : str;
  summary_speaker : str;
  summary_line_number : Z;
  text_preview : str;
}.

Record generation_summary := mkSummary {
  total_files : nat;
  speakers : gmap (list N) nat;
  output_directory : str;
  summary_files : list summary_file;
}.

Definition preview (s : str) : str :=
  if (100 <? len s)%Z then take 100 s ++ lit "..." else s.

(** The entry of [summary["files"]] for one audio file. *)
Definition summary_entry (audio_file : AudioFile) : summary_file :=
  mkSummaryFile (basename (file_path audio_file)) (audio_speaker audio_file)
    (audio_line_number audio_file) (preview (audio_text audio_file)).

(** One turn of the loop of [generate_summary]. *)
Definition summary_step (summary : generation_summary) (audio_file : AudioFile)
    : generation_summary :=
  let speaker := audio_speaker audio_file in
  let counts :=
    match speakers summary !! speaker with
    | None => <[ speaker := 0%nat ]> (speakers summary)
    | Some _ => speakers summary
    end in
  let counts := <[ speaker := S (default 0%nat (counts !! speaker)) ]> counts in
  mkSummary (total_files summary) counts (output_directory summary)
    (summary_files summary ++ [summary_entry audio_file]).

Definition generate_summary (output_dir : str) (audio_files : list AudioFile)
    : generation_summary :=
  fold_left summary_step audio_files (mkSummary (length audio_files) ∅ output_dir []).

(** ** Counting and order, for the statements *)

(** The audio files of one speaker. *)
Definition files_of (speaker : str) (audio_files : list AudioFile) : nat :=
  length (List.filter (fun a => bool_decide (audio_speaker a = speaker)) audio_files).

(** The sum of the counts of a [speakers] table. *)
Definition total (counts : gmap (list N) nat) : nat :=
  map_fold (fun _ n acc => (n + acc)%nat) 0%nat counts.

(** Playlist order: by line number. *)
Definition line_le (a b : AudioFile) : Prop :=
  (audio_line_number a <= audio_line_number b)%Z.

(** ** A sample run *)

(** The two-line book of the specification's end-to-end scenario, a backend
    that answers the first request with [Alice] and the later ones with [bob]
    between spaces, and upper-casing for text that stays within ASCII. *)
Definition sample_book : str :=
  lit "Alice said, " ++ [Chr.dquote] ++ lit "I'm leaving." ++ [Chr.dquote] ++ [Chr.newline]
  ++ lit "Bob frowned. " ++ [Chr.dquote] ++ lit "Don't go," ++ [Chr.dquote] ++ lit " he said.".

Definition sample_backend (i : nat) (prompt : str) : http_reply :=
  match i with
  | O => Replied 200 (Some (lit "Alice"))
  | _ => Replied 200 (Some (lit " bob "))
  end.

Definition ascii_upper_only (c : N) : list N := [c].

(** Lower-casing for text that stays within ASCII, and no character beyond
    ASCII that matches an ASCII letter when case is ignored. *)
Definition ascii_lower_only (s : str) : str := map ascii_lower s.

Definition no_unicode_fold (p c : N) : bool := false.

(** The dialogue of the sample book as the synthesis reads it, a service that
    answers every request with three bytes, and a disk that takes every file. *)
Definition sample_dialogue : list dialogue_entry :=
  [ mkDialogueEntry (lit "ALICE") 1
      (lit "Alice said, " ++ [Chr.dquote] ++ lit "I'm leaving." ++ [Chr.dquote]);
    mkDialogueEntry (lit "BOB") 2
      (lit "Bob frowned. " ++ [Chr.dquote] ++ lit "Don't go," ++ [Chr.dquote]
       ++ lit " he said.") ].

Definition sample_tts (k : nat) (request : tts_request) : tts_reply :=
  Answered 200 [Byte.x49; Byte.x44; Byte.x33].

Definition sample_disk (k : nat) : save_outcome := Written.

(** * Properties *)

(** ** Strings *)

Lemma is_empty_true s : is_empty s = true <-> s = [].
Proof. by destruct s. Qed.

Lemma is_empty_false s : is_empty s = false <-> s <> [].
Proof. by destruct s. Qed.

Lemma len_app s t : len (s ++ t) = (len s + len t)%Z.
Proof. unfold len. rewrite length_app. lia. Qed.

Lemma contains_elem_of c s : contains c s = true <-> c ∈ s.
Proof.
  unfold contains. rewrite existsb_exists. split.
  - intros (x & Hin & Heq). apply N.eqb_eq in Heq. subst x. by apply list_elem_of_In.
  - intros Hin. exists c. split; [by apply list_elem_of_In | apply N.eqb_refl].
Qed.

Lemma startswith_contains c s : startswith c s = true -> contains c s = true.
Proof.
  destruct s as [|x s]; simpl; [done|].
  intros H. apply N.eqb_eq in H. subst x. by rewrite N.eqb_refl.
Qed.

Lemma lstrip_space c s : isspace c = true -> lstrip (c :: s) = lstrip s.
Proof. intros H. simpl. by rewrite H. Qed.

Lemma lstrip_nonspace c s : isspace c = false -> lstrip (c :: s) = c :: s.
Proof. intros H. simpl. by rewrite H. Qed.

Lemma rstrip_nonspace c s : isspace c = false -> rstrip (c :: s) = c :: rstrip s.
Proof. intros H. simpl. by rewrite H. Qed.

Lemma rstrip_cons c s :
  (rstrip (c :: s) = [] /\ isspace c = true /\ rstrip s = []) \/
  rstrip (c :: s) = c :: rstrip s.
Proof.
  simpl. destruct (isspace c) eqn:Hc; [|by right].
  destruct (rstrip s); [by left | by right].
Qed.

Lemma strip_space c s : isspace c = true -> strip (c :: s) = strip s.
Proof. intros H. unfold strip. by rewrite lstrip_space. Qed.

Lemma strip_nonspace c s : isspace c = false -> strip (c :: s) = c :: rstrip s.
Proof. intros H. unfold strip. by rewrite lstrip_nonspace, rstrip_nonspace. Qed.

Lemma rstrip_snoc_space s c : isspace c = true -> rstrip (s ++ [c]) = rstrip s.
Proof.
  intros Hc. induction s as [|x s IH]; simpl.
  - by rewrite Hc.
  - by rewrite IH.
Qed.

Lemma strip_snoc_space s c : isspace c = true -> strip (s ++ [c]) = strip s.
Proof.
  intros Hc. unfold strip. induction s as [|x s IH]; cbn [app lstrip].
  - by rewrite Hc.
  - destruct (isspace x); [done|]. by apply (rstrip_snoc_space (x :: s)).
Qed.

Lemma length_lstrip s : (length (lstrip s) <= length s)%nat.
Proof. induction s as [|c s IH]; simpl; [done|]. destruct (isspace c); simpl; lia. Qed.

Lemma length_rstrip s : (length (rstrip s) <= length s)%nat.
Proof.
  induction s as [|c s IH]; simpl; [done|].
  destruct (isspace c && is_empty (rstrip s)); simpl; lia.
Qed.

Lemma len_strip s : (len (strip s) <= len s)%Z.
Proof.
  unfold len, strip. pose proof (length_rstrip (lstrip s)). pose proof (length_lstrip s). lia.
Qed.

(** ** The candidate scanner *)

(** C10: the test of [extract_potential_dialogue] is the test "the line
    contains a straight double quote, a straight single quote, an em dash or an
    en dash": the two [startswith] clauses add nothing, since a line that starts
    with a quote contains it. *)
Theorem candidate_test_is_marker_test line : is_candidate line = has_marker line.
Proof.
  unfold is_candidate, has_marker.
  destruct (startswith Chr.dquote line) eqn:Hd.
  { apply startswith_contains in Hd. by rewrite Hd. }
  destruct (startswith Chr.squote line) eqn:Hs.
  { apply startswith_contains in Hs. rewrite Hs. by destruct (contains Chr.dquote line). }
  by rewrite !orb_false_r.
Qed.

Lemma has_marker_spec line :
  has_marker line = true <-> exists c, c ∈ marker_chars /\ c ∈ line.
Proof.
  unfold has_marker, marker_chars. rewrite !orb_true_iff, !contains_elem_of. split.
  - intros [[[H|H]|H]|H]; eexists; (split; [|exact H]);
      repeat first [by apply list_elem_of_here | apply list_elem_of_further].
  - intros (c & Hc & Hin).
    repeat (apply elem_of_cons in Hc as [->|Hc]); [tauto..|]. by apply elem_of_nil in Hc.
Qed.

Lemma scan_lines_spec i lines line n :
  (line, n) ∈ scan_lines i lines <->
  exists j raw, n = (Z.of_nat (i + j) + 1)%Z /\ lines !! j = Some raw /\
                line = strip raw /\ line <> [] /\ is_candidate line = true.
Proof.
  revert i. induction lines as [|l rest IH]; intros i; simpl.
  - split; [by intros ?%elem_of_nil|]. by intros (j & raw & _ & ? & _).
  - assert (Hrest : (line, n) ∈ scan_lines (S i) rest <->
      exists j raw, n = (Z.of_nat (i + S j) + 1)%Z /\ (l :: rest) !! (S j) = Some raw /\
                line = strip raw /\ line <> [] /\ is_candidate line = true).
    { rewrite IH. split; intros (j & raw & Hn & H); exists j, raw; (split; [|exact H]); lia. }
    assert (Hskip : (is_empty (strip l) = true \/ is_candidate (strip l) = false) ->
      (line, n) ∈ scan_lines (S i) rest <->
      exists j raw, n = (Z.of_nat (i + j) + 1)%Z /\ (l :: rest) !! j = Some raw /\
                line = strip raw /\ line <> [] /\ is_candidate line = true).
    { intros Hno. rewrite Hrest. split.
      - intros (j & raw & H). by exists (S j), raw.
      - intros ([|j] & raw & Hn & Hl & Hs & Hne & Hc); [|by exists j, raw].
        simpl in Hl. injection Hl as <-. subst line. destruct Hno as [He|Hc'].
        + by apply is_empty_true in He.
        + congruence. }
    destruct (is_empty (strip l)) eqn:He; [apply Hskip; by left|].
    destruct (is_candidate (strip l)) eqn:Hc; [|apply Hskip; by right].
    rewrite elem_of_cons, Hrest. split.
    + intros [Heq|(j & raw & H)]; [|by exists (S j), raw].
      injection Heq as -> ->. exists 0%nat, l. rewrite Nat.add_0_r.
      by apply is_empty_false in He.
    + intros ([|j] & raw & Hn & Hl & Hs & Hne & Hc'); [|right; by exists j, raw].
      left. simpl in Hl. injection Hl as <-. rewrite Nat.add_0_r in Hn. by subst.
Qed.

Lemma scan_lines_sorted i lines : StronglySorted Z.lt (map snd (scan_lines i lines)).
Proof.
  revert i. induction lines as [|l rest IH]; intros i; simpl; [constructor|].
  destruct (is_empty (strip l)); [apply IH|].
  destruct (is_candidate (strip l)); [|apply IH].
  simpl. constructor; [apply IH|].
  apply Forall_forall. intros n Hn.
  apply list_elem_of_In, in_map_iff in Hn as ([line n'] & <- & Hin).
  apply list_elem_of_In, scan_lines_spec in Hin as (j & raw & -> & _). simpl. lia.
Qed.

(** C3, as the code has it: the scanner returns, in the order of the text and
    each with its line number counted from 1, exactly the trimmed lines that are
    not empty and contain a straight double quote, a straight single quote, an
    em dash or an en dash. Curly quotes are not looked for. A blank line is
    never returned. *)
Theorem extract_potential_dialogue_lines text :
  (forall line n,
     (line, n) ∈ extract_potential_dialogue text <->
     exists i raw, n = (Z.of_nat i + 1)%Z /\ split_on Chr.newline text !! i = Some raw /\
                   line = strip raw /\ line <> [] /\
                   exists c, c ∈ marker_chars /\ c ∈ line)
  /\ StronglySorted Z.lt (map snd (extract_potential_dialogue text)).
Proof.
  split; [|apply scan_lines_sorted].
  intros line n. unfold extract_potential_dialogue. rewrite scan_lines_spec.
  split; intros (i & raw & Hn & Hi & Hl & Hne & Hc); exists i, raw;
    repeat (split; [done|]).
  - apply has_marker_spec. by rewrite <- candidate_test_is_marker_test.
  - rewrite candidate_test_is_marker_test. by apply has_marker_spec.
Qed.

(** C3 fails as stated: a line in curly quotes is a candidate for the
    specification and is not returned. *)
Lemma curly_quoted_line_is_skipped :
  split_on Chr.newline [Chr.left_dquote; 72; 105; Chr.right_dquote] !! 0%nat
    = Some [Chr.left_dquote; 72; 105; Chr.right_dquote]
  /\ strip [Chr.left_dquote; 72; 105; Chr.right_dquote] <> []
  /\ spec_is_candidate (strip [Chr.left_dquote; 72; 105; Chr.right_dquote]) = true
  /\ extract_potential_dialogue [Chr.left_dquote; 72; 105; Chr.right_dquote] = [].
Proof. by vm_compute. Qed.

(** ** The context window *)

Lemma numbered_range_take_drop k lines lo hi :
  map snd (List.filter (fun p => (lo <=? fst p)%Z && (fst p <=? hi)%Z) (numbered_from k lines)) =
  take (Z.to_nat (hi + 1 - Z.max lo k)) (drop (Z.to_nat (lo - k)) lines).
Proof.
  revert k. induction lines as [|l rest IH]; intros k.
  - by rewrite drop_nil, take_nil.
  - cbn [numbered_from List.filter fst].
    destruct (Z.leb_spec lo k) as [Hlo|Hlo]; destruct (Z.leb_spec k hi) as [Hhi|Hhi];
      cbn [andb map snd]; rewrite IH.
    + replace (Z.to_nat (lo - k)) with 0%nat by lia.
      replace (Z.to_nat (hi + 1 - Z.max lo k)) with (S (Z.to_nat (hi - k))) by lia.
      replace (Z.to_nat (lo - (k + 1))) with 0%nat by lia.
      rewrite !drop_0. cbn [take]. do 2 f_equal. lia.
    + replace (Z.to_nat (hi + 1 - Z.max lo k)) with 0%nat by lia.
      by replace (Z.to_nat (hi + 1 - Z.max lo (k + 1))) with 0%nat by lia.
    + replace (Z.to_nat (lo - k)) with (S (Z.to_nat (lo - (k + 1)))) by lia.
      cbn [drop]. do 2 f_equal. lia.
    + replace (Z.to_nat (lo - k)) with (S (Z.to_nat (lo - (k + 1)))) by lia.
      cbn [drop]. do 2 f_equal. lia.
Qed.

Lemma take_past {A} (l : list A) n m :
  (length l <= n)%nat -> (length l <= m)%nat -> take n l = take m l.
Proof. intros Hn Hm. by rewrite !take_ge. Qed.

(** The slice of [parse_book] is the lines numbered [n - 3] to [n + 3]. *)
Lemma window_slice all_lines n : (1 <= n)%Z ->
  slice all_lines (Some (Z.max 0 (n - 4)))
    (Some (Z.min (Z.of_nat (length all_lines)) (n + 3))) =
  lines_between all_lines (n - 3) (n + 3).
Proof.
  intros Hn. unfold lines_between. rewrite numbered_range_take_drop.
  unfold slice, slice_bound.
  set (L := Z.of_nat (length all_lines)).
  destruct (Z.ltb_spec (Z.max 0 (n - 4)) 0) as [?|_]; [lia|].
  destruct (Z.ltb_spec (Z.min L (n + 3)) 0) as [?|_]; [lia|].
  destruct (Z.le_gt_cases (Z.max 0 (n - 4)) L) as [Hin|Hout].
  - replace (Z.to_nat (Z.min (Z.max 0 (n - 4)) L)) with (Z.to_nat (n - 3 - 1)) by lia.
    destruct (Z.le_gt_cases (n + 3) L) as [Hr|Hr].
    + f_equal. lia.
    + apply take_past; rewrite length_drop; lia.
  - rewrite !(drop_ge all_lines) by lia. by rewrite !take_nil.
Qed.

Lemma numbered_from_lookup k lines j :
  numbered_from k lines !! j = (fun l => ((k + Z.of_nat j)%Z, l)) <$> lines !! j.
Proof.
  revert k j. induction lines as [|l rest IH]; intros k [|j]; simpl; try done.
  - by rewrite Z.add_0_r.
  - rewrite IH. destruct (rest !! j); simpl; [|done]. do 2 f_equal. lia.
Qed.

(** [lines_between] selects lines of the document, by their number. *)
Lemma lines_between_elem all_lines lo hi raw :
  raw ∈ lines_between all_lines lo hi <->
  exists i, all_lines !! i = Some raw /\ (lo <= Z.of_nat i + 1 <= hi)%Z.
Proof.
  unfold lines_between. rewrite list_elem_of_In, in_map_iff. split.
  - intros ([k l] & <- & Hin). apply filter_In in Hin as [Hin Hr].
    apply list_elem_of_In, list_elem_of_lookup in Hin as [i Hi].
    rewrite numbered_from_lookup in Hi.
    destruct (all_lines !! i) as [l'|] eqn:Hl; simpl in Hi; [|done].
    injection Hi as <- <-. exists i. simpl in *. split; [done|lia].
  - intros (i & Hi & Hr). exists ((1 + Z.of_nat i)%Z, raw). split; [done|].
    apply filter_In. split; [|simpl; lia].
    apply list_elem_of_In, list_elem_of_lookup. exists i.
    by rewrite numbered_from_lookup, Hi.
Qed.

(** C2, as the code has it: the context window of line [n] is the trimmed,
    non-empty lines from 3 lines before line [n] through 3 lines after it, line
    [n] included, in the order of the document. No line of the window is blank,
    and each one is a line of the document whose number is between
    [max 1 (n - 3)] and [min (number of lines) (n + 3)]. *)
Theorem context_window_lines all_lines n : (1 <= n)%Z ->
  context_window all_lines n = trimmed_nonblank (lines_between all_lines (n - 3) (n + 3))
  /\ Forall (fun l => l <> [] /\ exists i raw, all_lines !! i = Some raw /\ l = strip raw /\
        (Z.max 1 (n - 3) <= Z.of_nat i + 1 <= Z.min (Z.of_nat (length all_lines)) (n + 3))%Z)
       (context_window all_lines n).
Proof.
  intros Hn.
  assert (Heq : context_window all_lines n =
                trimmed_nonblank (lines_between all_lines (n - 3) (n + 3))).
  { unfold context_window. by rewrite window_slice. }
  split; [done|]. rewrite Heq. apply Forall_forall. intros l Hl.
  apply list_elem_of_In, filter_In in Hl as [Hl Hne].
  split; [by destruct l|].
  apply in_map_iff in Hl as (raw & <- & Hraw).
  apply list_elem_of_In, lines_between_elem in Hraw as (i & Hi & Hr).
  exists i, raw. split; [done|]. split; [done|].
  apply lookup_lt_Some in Hi. lia.
Qed.

(** The theorem at line 4 of the eight lines a, b, ..., h. *)
Lemma context_window_lines_witness :
  (1 <= 4)%Z
  /\ context_window [[97]; [98]; [99]; [100]; [101]; [102]; [103]; [104]] 4
     = [[97]; [98]; [99]; [100]; [101]; [102]; [103]].
Proof.
  split; [lia|].
  destruct (context_window_lines [[97]; [98]; [99]; [100]; [101]; [102]; [103]; [104]] 4)
    as [H _]; [lia|].
  rewrite H. reflexivity.
Defined.

(** C2 fails as stated: at line 4 of the eight lines a, b, ..., h the window
    holds line 7 (g), which is 3 lines after line 4, and the prompt has the
    dialogue line after the last three lines of the window and before its first
    two. *)
Lemma window_reaches_three_lines_after :
  context_window [[97]; [98]; [99]; [100]; [101]; [102]; [103]; [104]] 4
    <> spec_context_window [[97]; [98]; [99]; [100]; [101]; [102]; [103]; [104]] 4
  /\ prompt_lines [100] (context_window [[97]; [98]; [99]; [100]; [101]; [102]; [103]; [104]] 4)
     = [[101]; [102]; [103]; [100]; [97]; [98]].
Proof. split; [vm_compute; congruence | reflexivity]. Qed.

(** ** Speaker attribution *)

Lemma confidence_levels_differ : high_confidence <> low_confidence.
Proof.
  intros H. apply (f_equal (fun x => PrimFloat.ltb x 0.5%float)) in H.
  vm_compute in H. discriminate.
Qed.

Lemma not_in_list s l : negb (in_list s l) = true <-> Forall (fun x => s <> x) l.
Proof.
  unfold in_list. rewrite negb_true_iff, bool_decide_eq_false.
  induction l as [|x l IH].
  - split; [constructor | intros _ ?%elem_of_nil; done].
  - rewrite not_elem_of_cons, Forall_cons. by rewrite IH.
Qed.

Lemma is_character_spec s :
  negb (in_list s [lit "UNKNOWN"; lit "NARRATOR"; []]) = true <-> is_character s.
Proof.
  rewrite not_in_list, !Forall_cons. unfold is_character. split; [tauto|].
  intros (? & ? & ?). by repeat constructor.
Qed.

Section AttributionFacts.

Variable up : N -> list N.

Lemma identify_speaker_unfold backend characters dialogue_line context_lines :
  identify_speaker up backend characters dialogue_line context_lines =
  let speaker := attributed_label up backend dialogue_line context_lines in
  ((speaker,
    if negb (in_list speaker [lit "UNKNOWN"; lit "NARRATOR"])
    then high_confidence else low_confidence),
   if negb (in_list speaker [lit "UNKNOWN"; lit "NARRATOR"; []])
   then {[ speaker ]} ∪ characters else characters).
Proof. reflexivity. Qed.

(** The confidence policy of the code: high unless the label is a sentinel. *)
Lemma identify_speaker_confidence backend characters dialogue_line context_lines :
  (identify_speaker up backend characters dialogue_line context_lines).1.2 =
  if bool_decide (attributed_label up backend dialogue_line context_lines <> lit "UNKNOWN" /\
                  attributed_label up backend dialogue_line context_lines <> lit "NARRATOR")
  then high_confidence else low_confidence.
Proof.
  rewrite identify_speaker_unfold. cbn [fst snd].
  destruct (negb (in_list _ _)) eqn:Hin.
  - apply not_in_list in Hin. rewrite !Forall_cons in Hin.
    rewrite bool_decide_eq_true_2; [done|]. tauto.
  - rewrite bool_decide_eq_false_2; [done|]. intros [H1 H2].
    apply not_true_iff_false in Hin. apply Hin, not_in_list.
    by repeat constructor.
Qed.

(** C1, where the code departs from it: when the request to the backend
    fails, the label is empty and the confidence is the high one, 0.8, not
    0.3. *)
Theorem backend_failure_gets_high_confidence characters dialogue_line context_lines :
  identify_speaker up (fun _ => Raised) characters dialogue_line context_lines
    = (([], high_confidence), characters)
  /\ high_confidence <> low_confidence.
Proof. split; [reflexivity | apply confidence_levels_differ]. Qed.

Lemma identify_speaker_characters backend characters dialogue_line context_lines s :
  s ∈ (identify_speaker up backend characters dialogue_line context_lines).2 <->
  s ∈ characters \/
  (s = (identify_speaker up backend characters dialogue_line context_lines).1.1
   /\ is_character s).
Proof.
  rewrite identify_speaker_unfold. cbn [fst snd].
  destruct (negb (in_list _ _)) eqn:Hin.
  - apply is_character_spec in Hin.
    rewrite elem_of_union, elem_of_singleton. split.
    + intros [->|?]; [by right | by left].
    + intros [?|[-> _]]; [by right | by left].
  - split; [by left|]. intros [?|[-> Hc]]; [done|].
    apply is_character_spec in Hc. congruence.
Qed.

Lemma attribute_lines_characters backend all_lines cands i characters s :
  s ∈ (attribute_lines up backend all_lines i cands characters).2 <->
  s ∈ characters \/
  (exists dl, dl ∈ (attribute_lines up backend all_lines i cands characters).1
              /\ speaker dl = s /\ is_character s).
Proof.
  revert i characters. induction cands as [|[dialogue_line n] rest IH]; intros i characters.
  - simpl. split; [by left|]. intros [?|(dl & Hdl & _)]; [done|]. by apply elem_of_nil in Hdl.
  - cbn [attribute_lines].
    pose proof (identify_speaker_characters (backend i) characters dialogue_line
                  (context_window all_lines n) s) as Hstep.
    destruct (identify_speaker _ _ _ _ _) as [[sp conf] characters'].
    specialize (IH (S i) characters').
    destruct (attribute_lines _ _ _ _ _ _) as [results characters''].
    cbn [fst snd] in *. rewrite IH, Hstep. split.
    + intros [[?|[-> Hc]]|(dl & Hdl & Hs & Hc)].
      * by left.
      * right. eexists. split; [by left|]. done.
      * right. exists dl. split; [by right|]. done.
    + intros [?|(dl & Hdl & Hs & Hc)]; [by left; left|].
      apply elem_of_cons in Hdl as [->|Hdl].
      * left. right. by split.
      * right. by exists dl.
Qed.

(** The results of the loop, one for each candidate and in their order. *)
Lemma attribute_lines_results backend all_lines cands i characters :
  Forall2 (fun dl '(cand, j) =>
     text dl = cand.1 /\ line_number dl = cand.2 /\
     speaker dl = attributed_label up (backend j) cand.1 (context_window all_lines cand.2) /\
     confidence dl =
       if in_list (speaker dl) [lit "UNKNOWN"; lit "NARRATOR"]
       then low_confidence else high_confidence)
    (attribute_lines up backend all_lines i cands characters).1
    (zip cands (seq i (length cands))).
Proof.
  revert i characters. induction cands as [|[dialogue_line n] rest IH]; intros i characters.
  - constructor.
  - cbn [attribute_lines length seq zip zip_with].
    destruct (identify_speaker up (backend i) characters dialogue_line
                (context_window all_lines n)) as [[sp conf] characters'] eqn:Hid.
    rewrite identify_speaker_unfold in Hid. injection Hid as Hsp Hconf _.
    specialize (IH (S i) characters').
    destruct (attribute_lines up backend all_lines (S i) rest characters') as [results ?].
    constructor; [|exact IH].
    cbn [text speaker line_number confidence fst snd]. subst sp conf.
    repeat split. by destruct (in_list _ _).
Qed.

Lemma attribute_lines_line_numbers backend all_lines cands i characters :
  map line_number (attribute_lines up backend all_lines i cands characters).1 = map snd cands.
Proof.
  revert i characters. induction cands as [|[dialogue_line n] rest IH]; intros i characters.
  - done.
  - cbn [attribute_lines].
    destruct (identify_speaker _ _ _ _ _) as [[sp conf] characters'].
    specialize (IH (S i) characters').
    destruct (attribute_lines _ _ _ _ _ _) as [results ?].
    cbn [fst map line_number snd] in *. by rewrite IH.
Qed.

(** [parse_book] returns one dialogue line for each candidate, in the order
    of the candidates, which is the order of the line numbers; each has the text
    and the line number of its candidate, the normalized label of its request as
    speaker, and one of the two confidence values. *)
Theorem parse_book_results backend content characters :
  Forall2 (fun dl '(cand, j) =>
     text dl = cand.1 /\ line_number dl = cand.2 /\
     speaker dl = attributed_label up (backend j) cand.1
                    (context_window (split_on Chr.newline content) cand.2) /\
     confidence dl =
       if in_list (speaker dl) [lit "UNKNOWN"; lit "NARRATOR"]
       then low_confidence else high_confidence)
    (parse_book up backend (Some content) characters).1
    (zip (extract_potential_dialogue content)
         (seq 0 (length (extract_potential_dialogue content))))
  /\ StronglySorted Z.lt (map line_number (parse_book up backend (Some content) characters).1).
Proof.
  split; [apply attribute_lines_results|]. cbn [parse_book].
  rewrite attribute_lines_line_numbers. apply scan_lines_sorted.
Qed.

(** C8: after [parse_book] on a fresh parser, the character set is exactly
    the set of the speaker labels of the dialogue lines that are not [UNKNOWN],
    not [NARRATOR] and not empty, each of these labels being the normalized
    answer of the backend for one candidate; and the set only grows, over the
    run and over each attribution. *)
Theorem parse_book_character_set backend file :
  (forall s, s ∈ (parse_book up backend file ∅).2 <->
     (exists dl, dl ∈ (parse_book up backend file ∅).1 /\ speaker dl = s)
     /\ s <> lit "UNKNOWN" /\ s <> lit "NARRATOR" /\ s <> [])
  /\ (forall dl, dl ∈ (parse_book up backend file ∅).1 ->
        exists j dialogue_line context_lines,
          speaker dl = attributed_label up (backend j) dialogue_line context_lines)
  /\ (forall characters, characters ⊆ (parse_book up backend file characters).2)
  /\ (forall reply characters dialogue_line context_lines,
        characters ⊆ (identify_speaker up reply characters dialogue_line context_lines).2).
Proof.
  split; [|split; [|split]].
  - intros s. destruct file as [text|]; cbn [parse_book].
    + rewrite attribute_lines_characters. unfold is_character. split.
      * intros [H|(dl & Hdl & Hs & Hc)]; [by apply not_elem_of_empty in H|].
        split; [by exists dl|done].
      * intros [(dl & Hdl & Hs) Hc]. right. by exists dl.
    + simpl. split; [by intros ?%not_elem_of_empty|].
      intros [(dl & Hdl & _) _]. by apply elem_of_nil in Hdl.
  - intros dl Hdl. destruct file as [content|]; cbn [parse_book] in Hdl;
      [|by apply elem_of_nil in Hdl].
    apply list_elem_of_lookup in Hdl as [k Hk].
    pose proof (attribute_lines_results backend (split_on Chr.newline content)
                  (extract_potential_dialogue content) 0 ∅) as H.
    destruct (Forall2_lookup_l _ _ _ _ _ H Hk) as ([cand j] & _ & _ & _ & Hs & _).
    by exists j, cand.1, (context_window (split_on Chr.newline content) cand.2).
  - intros characters. destruct file as [text|]; cbn [parse_book]; [|done].
    intros s Hs. apply attribute_lines_characters. by left.
  - intros reply characters dialogue_line context_lines s Hs.
    apply identify_speaker_characters. by left.
Qed.

End AttributionFacts.

(** ** The chunker: words and whitespace *)

Lemma words_space c s : isspace c = true -> words (c :: s) = words s.
Proof. intros H. simpl. by rewrite H. Qed.

Lemma words_cons_nonspace c s : isspace c = false ->
  words (c :: s) =
  match s with
  | [] => [[c]]
  | c' :: _ => if isspace c' then [c] :: words s else cons_head c (words s)
  end.
Proof. intros H. simpl. by rewrite H. Qed.

Lemma words_nonspace_cons c s :
  isspace c = false -> exists w ws, words (c :: s) = (c :: w) :: ws.
Proof.
  revert c. induction s as [|c' s IH]; intros c Hc; simpl; rewrite Hc.
  - by exists [], [].
  - destruct (isspace c') eqn:Hc'.
    + by eexists [], _.
    + destruct (IH c' Hc') as (w & ws & Hw). simpl in Hw. rewrite Hc' in Hw.
      rewrite Hw. by eexists _, _.
Qed.

Lemma words_app_space a c b : isspace c = true -> words (a ++ c :: b) = words a ++ words b.
Proof.
  intros Hc. induction a as [|x a IH].
  - simpl. by rewrite Hc.
  - cbn [app words]. destruct (isspace x) eqn:Hx; [exact IH|].
    destruct a as [|y a].
    + cbn [app]. rewrite Hc. by rewrite (words_space c b).
    + cbn [app] in *. destruct (isspace y) eqn:Hy.
      * by rewrite IH.
      * rewrite IH. destruct (words_nonspace_cons y a Hy) as (w & ws & ->). done.
Qed.

Lemma words_skip_space w s : forallb isspace w = true -> words (w ++ s) = words s.
Proof.
  induction w as [|c w IH]; simpl; [done|].
  intros [Hc Hw]%andb_true_iff. rewrite Hc. by apply IH.
Qed.

Lemma words_app_gap a w b :
  w <> [] -> forallb isspace w = true -> words (a ++ w ++ b) = words a ++ words b.
Proof.
  destruct w as [|c w]; [done|]. intros _ [Hc Hw]%andb_true_iff.
  cbn [app]. rewrite words_app_space by done. by rewrite words_skip_space.
Qed.

Lemma words_lstrip s : words (lstrip s) = words s.
Proof.
  induction s as [|c s IH]; [done|].
  destruct (isspace c) eqn:Hc.
  - by rewrite lstrip_space, words_space.
  - by rewrite lstrip_nonspace.
Qed.

Lemma words_rstrip s : words (rstrip s) = words s.
Proof.
  induction s as [|c s IH]; [done|].
  destruct (isspace c) eqn:Hc.
  - rewrite (words_space c s) by done.
    destruct (rstrip_cons c s) as [(-> & _ & Hrs) | ->].
    + by rewrite <- IH, Hrs.
    + by rewrite words_space.
  - rewrite rstrip_nonspace, !words_cons_nonspace by done.
    destruct s as [|y s]; [done|].
    destruct (rstrip_cons y s) as [(Hr & Hy & _) | Hr]; rewrite Hr in *.
    + by rewrite Hy, <- IH.
    + by rewrite IH.
Qed.

Lemma words_strip s : words (strip s) = words s.
Proof. unfold strip. by rewrite words_rstrip, words_lstrip. Qed.

Lemma words_join l : words (join [Chr.space] l) = concat (map words l).
Proof.
  induction l as [|p l IH]; [done|].
  destruct l as [|q l].
  - simpl. by rewrite app_nil_r.
  - change (join [Chr.space] (p :: q :: l)) with (p ++ Chr.space :: join [Chr.space] (q :: l)).
    rewrite words_app_space by done. by rewrite IH.
Qed.

Lemma join_words_nil s : join [Chr.space] (words s) = [] <-> words s = [].
Proof.
  split; [|by intros ->].
  destruct s as [|c s]; [done|]. revert c.
  induction s as [|c' s IH]; intros c.
  - simpl. by destruct (isspace c).
  - destruct (isspace c) eqn:Hc.
    + rewrite words_space by done. apply IH.
    + destruct (words_nonspace_cons c (c' :: s) Hc) as (w & ws & ->).
      simpl. by destruct ws.
Qed.

Lemma join_cons_head c l :
  l <> [] -> join [Chr.space] (cons_head c l) = c :: join [Chr.space] l.
Proof. destruct l as [|w [|w' l]]; done. Qed.

Lemma lstrip_squeeze s : lstrip (squeeze true s) = squeeze true s.
Proof.
  induction s as [|c s IH]; [done|]. simpl.
  destruct (isspace c) eqn:Hc; [done|]. simpl. by rewrite Hc.
Qed.

Lemma rstrip_squeeze s :
  rstrip (squeeze true s) = join [Chr.space] (words s) /\
  rstrip (squeeze false s) =
    match s with
    | [] => []
    | c :: _ =>
        if isspace c && negb (is_empty (join [Chr.space] (words s)))
        then Chr.space :: join [Chr.space] (words s)
        else join [Chr.space] (words s)
    end.
Proof.
  induction s as [|c s [IHt IHf]]; [done|].
  assert (Hnon : isspace c = false ->
    c :: rstrip (squeeze false s) = join [Chr.space] (words (c :: s))).
  { intros Hc. rewrite IHf, words_cons_nonspace by done.
    destruct s as [|c' s]; [done|].
    destruct (isspace c') eqn:Hc'; cbn [andb].
    - destruct (join [Chr.space] (words (c' :: s))) eqn:Hj.
      + apply join_words_nil in Hj. by rewrite Hj.
      + destruct (words (c' :: s)) as [|w0 ws0] eqn:Hw; [done|]. cbn [negb is_empty].
        change (join [Chr.space] ([c] :: w0 :: ws0))
          with ([c] ++ [Chr.space] ++ join [Chr.space] (w0 :: ws0)).
        by rewrite Hj.
    - destruct (words_nonspace_cons c' s Hc') as (w & ws & Hw). rewrite Hw.
      by rewrite join_cons_head. }
  cbn [squeeze]. destruct (isspace c) eqn:Hc; cbn [andb].
  - rewrite (words_space c s) by done. split; [done|].
    cbn [rstrip]. rewrite IHt. change (isspace Chr.space) with true. cbn [andb].
    by destruct (join [Chr.space] (words s)).
  - rewrite !rstrip_nonspace by done. split; by apply Hnon.
Qed.

(** Collapsing whitespace leaves the words, one space between two. *)
Lemma collapse_whitespace_words s :
  collapse_whitespace s = join [Chr.space] (words s).
Proof.
  unfold collapse_whitespace. destruct s as [|c s]; [done|].
  cbn [squeeze]. destruct (isspace c) eqn:Hc.
  - rewrite strip_space by done. unfold strip.
    rewrite lstrip_squeeze, words_space by done. apply rstrip_squeeze.
  - rewrite strip_nonspace by done.
    destruct (rstrip_squeeze (c :: s)) as [_ H]. cbn [squeeze] in H.
    rewrite Hc in H. rewrite rstrip_nonspace in H by done. by rewrite H.
Qed.

(** ** The chunker: sentences *)

Lemma prepend_cons_head p c pieces :
  prepend p (cons_head c pieces) = prepend (p ++ [c]) pieces.
Proof. destruct pieces; simpl; [done | by rewrite <- app_assoc]. Qed.

Lemma prepend_nil_cons_head c pieces : prepend [] (cons_head c pieces) = cons_head c pieces.
Proof. by destruct pieces. Qed.

Lemma split_scan_nonempty m s : split_scan m s <> [].
Proof.
  revert m. induction s as [|c s IH]; intros m; simpl; [done|].
  destruct (isspace c); [destruct m|]; try done; by destruct (split_scan _ s).
Qed.

(** The scan in each of its three modes, with the part [p] of the current
    sentence and the part [w] of the current separator that were read. *)
Lemma split_scan_spec s :
  (forall p, sentence_split (p ++ s) (prepend p (split_scan InSentence s))) /\
  (forall p, ends_with_mark p -> sentence_split (p ++ s) (prepend p (split_scan AfterMark s))) /\
  (forall p w, ends_with_mark p -> w <> [] -> forallb isspace w = true ->
     sentence_split (p ++ w ++ s) (p :: split_scan InSeparator s)).
Proof.
  induction s as [|c s (IHs & IHm & IHw)].
  - repeat split.
    + intros p. simpl. constructor.
    + intros p _. simpl. constructor.
    + intros p w Hp Hw Hws. simpl. apply split_next; try done. constructor.
  - assert (Htext : isspace c = false -> forall p,
      sentence_split (p ++ c :: s)
        (prepend p (cons_head c (split_scan (if is_mark c then AfterMark else InSentence) s)))).
    { intros Hc p. rewrite prepend_cons_head.
      replace (p ++ c :: s) with ((p ++ [c]) ++ s) by by rewrite <- app_assoc.
      destruct (is_mark c) eqn:Hm; [|apply IHs].
      apply IHm. by exists p, c. }
    repeat split.
    + intros p. cbn [split_scan]. destruct (isspace c) eqn:Hc; [|by apply Htext].
      rewrite prepend_cons_head.
      replace (p ++ c :: s) with ((p ++ [c]) ++ s) by by rewrite <- app_assoc.
      apply IHs.
    + intros p Hp. cbn [split_scan]. destruct (isspace c) eqn:Hc; [|by apply Htext].
      cbn [prepend]. rewrite app_nil_r.
      apply (IHw p [c]); try done. simpl. by rewrite Hc.
    + intros p w Hp Hw Hws. cbn [split_scan]. destruct (isspace c) eqn:Hc.
      * replace (p ++ w ++ c :: s) with (p ++ (w ++ [c]) ++ s)
          by by rewrite <- (app_assoc w).
        apply IHw; try done.
        -- by destruct w.
        -- rewrite forallb_app, Hws. simpl. by rewrite Hc.
      * apply split_next; try done.
        -- simpl. by rewrite Hc.
        -- specialize (Htext eq_refl []). by rewrite prepend_nil_cons_head in Htext.
Qed.

(** [split_sentences] cuts the text at the whitespace that follows a mark, and
    nowhere else. *)
Lemma split_sentences_spec text : sentence_split text (split_sentences text).
Proof.
  destruct (split_scan_spec text) as (H & _). specialize (H []).
  unfold split_sentences. pose proof (split_scan_nonempty InSentence text).
  by destruct (split_scan InSentence text).
Qed.

Lemma words_sentence_split text ss :
  sentence_split text ss -> words text = concat (map words ss).
Proof.
  induction 1 as [s | s w rest ss _ Hw Hws _ _ IH]; simpl.
  - by rewrite app_nil_r.
  - rewrite words_app_gap by done. by rewrite IH.
Qed.

(** ** The chunker: packing sentences into chunks *)

Lemma pack_snoc g s : pack (g ++ [s]) = pack g ++ s ++ [Chr.space].
Proof. unfold pack. rewrite map_app, concat_app. simpl. by rewrite app_nil_r. Qed.

Lemma pack_empty g : is_empty (pack g) = true <-> g = [].
Proof.
  destruct g as [|s g]; [done|]. unfold pack. simpl.
  destruct s; simpl; split; done.
Qed.

Lemma pack_join g : g <> [] -> pack g = join [Chr.space] g ++ [Chr.space].
Proof.
  induction g as [|s g IH]; [done|]. intros _.
  destruct g as [|t g].
  - unfold pack. simpl. by rewrite app_nil_r.
  - change (pack (s :: t :: g)) with ((s ++ [Chr.space]) ++ pack (t :: g)).
    rewrite IH by done.
    change (join [Chr.space] (s :: t :: g)) with (s ++ [Chr.space] ++ join [Chr.space] (t :: g)).
    by rewrite <- !app_assoc.
Qed.

(** A chunk is the sentences of its group joined by single spaces, trimmed. *)
Lemma strip_pack g : strip (pack g) = strip (join [Chr.space] g).
Proof.
  destruct g as [|s g]; [done|].
  rewrite pack_join by done. by apply strip_snoc_space.
Qed.

Lemma words_pack g : words (pack g) = concat (map words g).
Proof.
  induction g as [|s g IH]; [done|].
  change (pack (s :: g)) with ((s ++ [Chr.space]) ++ pack g).
  rewrite <- app_assoc. cbn [app]. rewrite words_app_space by done.
  by rewrite IH.
Qed.

Lemma chunk_step_packing max_length done st sentence :
  packing max_length done st ->
  packing max_length (done ++ [sentence]) (chunk_step max_length st sentence).
Proof.
  destruct st as [chunks current].
  intros (groups & cur & Hdone & Hchunks & Hcur & Hgroups & Hok).
  simpl in Hchunks, Hcur. subst chunks current done.
  unfold chunk_step.
  destruct (Z.leb_spec (len (pack cur) + len sentence + 1) max_length) as [Hfit|Hfit].
  - exists groups, (cur ++ [sentence]). simpl.
    split; [by rewrite app_assoc|]. split; [done|]. split; [by rewrite pack_snoc|].
    split; [done|]. right. split; [by destruct cur|]. left.
    rewrite pack_snoc, !len_app. unfold len at 3. simpl. lia.
  - assert (Hnew : group_ok max_length [sentence]).
    { split; [done|].
      destruct (Z.le_gt_cases (len sentence + 1) max_length) as [Hs|Hs].
      - left. unfold pack. simpl. rewrite app_nil_r, len_app. unfold len at 2. simpl. lia.
      - right. by exists sentence. }
    assert (Hone : pack [sentence] = sentence ++ [Chr.space]).
    { unfold pack. simpl. by rewrite app_nil_r. }
    destruct (is_empty (pack cur)) eqn:He.
    + apply pack_empty in He. subst cur.
      exists groups, [sentence]. simpl.
      split; [by rewrite app_nil_r|]. split; [done|]. split; [done|]. split; [done|].
      by right.
    + assert (cur <> []) as Hne by (by intros ->).
      destruct Hok as [?|Hok]; [done|].
      exists (groups ++ [cur]), [sentence]. simpl.
      split; [rewrite concat_app; simpl; by rewrite app_nil_r|].
      split; [by rewrite map_app|]. split; [done|].
      split; [|by right]. apply Forall_app. split; [done|]. by constructor.
Qed.

Lemma fold_chunk_step_packing max_length sentences done st :
  packing max_length done st ->
  packing max_length (done ++ sentences) (fold_left (chunk_step max_length) sentences st).
Proof.
  revert done st. induction sentences as [|s sentences IH]; intros done st H; simpl.
  - by rewrite app_nil_r.
  - replace (done ++ s :: sentences) with ((done ++ [s]) ++ sentences)
      by by rewrite <- app_assoc.
    apply IH. by apply chunk_step_packing.
Qed.

(** The chunks of a long text: the sentences, in order, cut into groups. *)
Lemma chunk_text_groups text max_length : (max_length < len text)%Z ->
  exists groups,
    concat groups = split_sentences text /\
    chunk_text text max_length = map (fun g => strip (pack g)) groups /\
    Forall (group_ok max_length) groups.
Proof.
  intros Hlong. unfold chunk_text.
  destruct (Z.leb_spec (len text) max_length) as [?|_]; [lia|].
  pose proof (fold_chunk_step_packing max_length (split_sentences text) [] ([], [])) as H.
  destruct H as (groups & cur & Hdone & Hchunks & Hcur & Hgroups & Hok).
  { exists [], []. repeat split; try done. by left. }
  destruct (fold_left _ _ _) as [chunks current]. simpl in *. subst chunks current.
  destruct (is_empty (pack cur)) eqn:He.
  - apply pack_empty in He. subst cur.
    exists groups. by rewrite app_nil_r in Hdone.
  - assert (cur <> []) as Hne by (by intros ->).
    destruct Hok as [?|Hok]; [done|].
    exists (groups ++ [cur]). repeat split.
    + rewrite concat_app. simpl. by rewrite app_nil_r.
    + by rewrite map_app.
    + apply Forall_app. split; [done|]. by constructor.
Qed.

Lemma has_boundary_cons c s :
  has_boundary (c :: s)
  = match s with
    | [] => false
    | c' :: _ => (is_mark c && isspace c') || has_boundary s
    end.
Proof. done. Qed.

(** No piece of the scan has a cut left inside it; after a mark, the first
    piece does not begin with whitespace. *)
Lemma split_scan_unbroken m s :
  Forall (fun piece => has_boundary piece = false) (split_scan m s)
  /\ (m = AfterMark ->
      match split_scan m s with
      | (c :: _) :: _ => isspace c = false
      | _ => True
      end).
Proof.
  revert m. induction s as [|c s IH]; intros m.
  - split; [by repeat constructor|done].
  - cbn [split_scan]. destruct (isspace c) eqn:Hc.
    + destruct m.
      * split; [|done]. constructor; [done|]. apply IH.
      * split; [|done]. destruct (IH InSentence) as [Hp _].
        destruct (split_scan InSentence s) as [|p ps]; [by repeat constructor|].
        cbn [cons_head]. apply Forall_cons in Hp as [Hp Hps]. constructor; [|done].
        rewrite has_boundary_cons. destruct p as [|c' p]; [done|].
        rewrite Hp. assert (is_mark c = false) as ->; [|done].
        unfold is_mark. destruct (N.eqb_spec c Chr.dot) as [->|_]; [done|].
        destruct (N.eqb_spec c Chr.bang) as [->|_]; [done|].
        by destruct (N.eqb_spec c Chr.question) as [->|_].
      * split; [|done]. apply IH.
    + set (m' := if is_mark c then AfterMark else InSentence).
      destruct (IH m') as [Hp Hhead]. split.
      * destruct (split_scan m' s) as [|p ps]; [by repeat constructor|].
        cbn [cons_head]. apply Forall_cons in Hp as [Hp Hps]. constructor; [|done].
        rewrite has_boundary_cons. destruct p as [|c' p]; [done|].
        rewrite Hp, orb_false_r. subst m'. destruct (is_mark c); [|done].
        specialize (Hhead eq_refl). cbn beta iota in Hhead. by rewrite Hhead.
      * intros _. destruct (split_scan m' s) as [|p ps]; cbn [cons_head]; done.
Qed.

Lemma split_sentences_unbroken text :
  Forall (fun s => has_boundary s = false) (split_sentences text).
Proof. apply split_scan_unbroken. Qed.

Lemma greedy_grow max_length groups cur sentence :
  (cur = [] -> groups = []) ->
  greedy max_length (groups ++ [cur]) ->
  greedy max_length (groups ++ [cur ++ [sentence]]).
Proof.
  intros Hopen Hgreedy i g s rest Hi Hnext.
  assert (Hlt : (S i < length (groups ++ [cur ++ [sentence]]))%nat)
    by (eapply lookup_lt_Some; exact Hnext).
  rewrite length_app in Hlt. cbn [length] in Hlt.
  rewrite lookup_app_l in Hi by lia.
  destruct (decide (S i < length groups)%nat) as [Hin|Hlast].
  - rewrite lookup_app_l in Hnext by done.
    apply (Hgreedy i g s rest); by rewrite lookup_app_l by lia.
  - assert (S i = length groups) as Hsi by lia.
    rewrite lookup_app_r in Hnext by lia. rewrite Hsi, Nat.sub_diag in Hnext.
    cbn in Hnext. injection Hnext as Hcur.
    destruct cur as [|s0 cur0].
    + rewrite Hopen in Hsi by done. discriminate.
    + cbn [app] in Hcur. injection Hcur as -> _.
      apply (Hgreedy i g s cur0); [by rewrite lookup_app_l by lia|].
      rewrite lookup_app_r by lia. by rewrite Hsi, Nat.sub_diag.
Qed.

Lemma greedy_close max_length groups cur sentence :
  greedy max_length (groups ++ [cur]) ->
  (max_length < len (pack cur) + len sentence + 1)%Z ->
  greedy max_length ((groups ++ [cur]) ++ [[sentence]]).
Proof.
  intros Hgreedy Hfull i g s rest Hi Hnext.
  assert (Hlt : (S i < length ((groups ++ [cur]) ++ [[sentence]]))%nat)
    by (eapply lookup_lt_Some; exact Hnext).
  rewrite length_app in Hlt. cbn [length] in Hlt.
  rewrite lookup_app_l in Hi by lia.
  destruct (decide (S i < length (groups ++ [cur]))%nat) as [Hin|Hlast].
  - rewrite lookup_app_l in Hnext by done. by apply (Hgreedy i g s rest).
  - assert (S i = length (groups ++ [cur])) as Hsi by lia.
    rewrite lookup_app_r in Hnext by lia. rewrite Hsi, Nat.sub_diag in Hnext.
    cbn in Hnext. injection Hnext as -> _.
    rewrite length_app in Hsi. cbn [length] in Hsi.
    rewrite lookup_app_r in Hi by lia.
    replace (i - length groups)%nat with 0%nat in Hi by lia.
    cbn in Hi. by injection Hi as <-.
Qed.

Lemma chunk_step_greedy_packing max_length done st sentence :
  greedy_packing max_length done st ->
  greedy_packing max_length (done ++ [sentence]) (chunk_step max_length st sentence).
Proof.
  destruct st as [chunks current].
  intros (groups & cur & Hdone & Hchunks & Hcur & Hgroups & Hok & Hopen & Hgreedy).
  simpl in Hchunks, Hcur. subst chunks current done.
  unfold chunk_step.
  destruct (Z.leb_spec (len (pack cur) + len sentence + 1) max_length) as [Hfit|Hfit].
  - exists groups, (cur ++ [sentence]). simpl.
    split; [by rewrite app_assoc|]. split; [done|]. split; [by rewrite pack_snoc|].
    split; [done|]. split.
    { right. split; [by destruct cur|]. left.
      rewrite pack_snoc, !len_app. unfold len at 3. simpl. lia. }
    split; [by destruct cur|]. by apply greedy_grow.
  - assert (Hnew : group_ok max_length [sentence]).
    { split; [done|].
      destruct (Z.le_gt_cases (len sentence + 1) max_length) as [Hs|Hs].
      - left. unfold pack. simpl. rewrite app_nil_r, len_app. unfold len at 2. simpl. lia.
      - right. by exists sentence. }
    destruct (is_empty (pack cur)) eqn:He.
    + apply pack_empty in He. subst cur. rewrite Hopen by done.
      exists [], [sentence]. simpl.
      split; [done|]. split; [done|].
      split; [unfold pack; simpl; by rewrite app_nil_r|]. split; [done|].
      split; [by right|]. split; [done|].
      intros i g s rest Hi Hnext. by destruct i.
    + assert (cur <> []) as Hne by (by intros ->).
      destruct Hok as [?|Hok]; [done|].
      exists (groups ++ [cur]), [sentence]. simpl.
      split; [rewrite concat_app; simpl; by rewrite app_nil_r|].
      split; [by rewrite map_app|].
      split; [unfold pack; simpl; by rewrite app_nil_r|].
      split; [apply Forall_app; split; [done|by constructor]|].
      split; [by right|]. split; [done|]. by apply greedy_close.
Qed.

Lemma fold_chunk_step_greedy_packing max_length sentences done st :
  greedy_packing max_length done st ->
  greedy_packing max_length (done ++ sentences)
    (fold_left (chunk_step max_length) sentences st).
Proof.
  revert done st. induction sentences as [|s sentences IH]; intros done st H; simpl.
  - by rewrite app_nil_r.
  - replace (done ++ s :: sentences) with ((done ++ [s]) ++ sentences)
      by by rewrite <- app_assoc.
    apply IH. by apply chunk_step_greedy_packing.
Qed.

(** The chunks of a long text: the sentences, in order, cut into greedy groups. *)
Lemma chunk_text_greedy_groups text max_length : (max_length < len text)%Z ->
  exists groups,
    concat groups = split_sentences text /\
    chunk_text text max_length = map (fun g => strip (pack g)) groups /\
    Forall (group_ok max_length) groups /\
    greedy max_length groups.
Proof.
  intros Hlong. unfold chunk_text.
  destruct (Z.leb_spec (len text) max_length) as [?|_]; [lia|].
  pose proof (fold_chunk_step_greedy_packing max_length (split_sentences text) [] ([], []))
    as H.
  destruct H as (groups & cur & Hdone & Hchunks & Hcur & Hgroups & Hok & Hopen & Hgreedy).
  { exists [], []. split; [done|]. split; [done|]. split; [done|]. split; [done|].
    split; [by left|]. split; [done|].
    intros i g s rest Hi Hnext. by destruct i. }
  destruct (fold_left _ _ _) as [chunks current]. simpl in *. subst chunks current.
  destruct (is_empty (pack cur)) eqn:He.
  - apply pack_empty in He. subst cur. rewrite Hopen in * by done.
    exists []. split; [done|]. split; [done|]. split; [done|].
    intros i g s rest Hi. by destruct i.
  - assert (cur <> []) as Hne by (by intros ->).
    destruct Hok as [?|Hok]; [done|].
    exists (groups ++ [cur]). repeat split.
    + rewrite concat_app. simpl. by rewrite app_nil_r.
    + by rewrite map_app.
    + apply Forall_app. split; [done|]. by constructor.
    + done.
Qed.

(** C7: a text no longer than the maximum is returned as one chunk, itself.
    A longer text is cut into the sentences of [re.split]: at the whitespace
    that follows ['.'], ['!'] or ['?'], only there, and at every such place, so
    that no sentence has a mark with whitespace after it inside. The chunks are
    these sentences in order, in groups, each chunk being the sentences of its
    group joined by single spaces and trimmed. A chunk is no longer than the
    maximum unless its group is a single sentence that is longer than the
    maximum, which is then the whole chunk. The groups are greedy: the first
    sentence of a group is one that did not fit into the group before it. *)
Theorem chunk_text_sentence_boundaries text max_length :
  ((len text <= max_length)%Z -> chunk_text text max_length = [text]) /\
  ((max_length < len text)%Z ->
   exists groups : list (list (list N)),
     concat groups = split_sentences text /\
     sentence_split text (concat groups) /\
     Forall (fun s => has_boundary s = false) (concat groups) /\
     chunk_text text max_length = map (fun g => strip (join [Chr.space] g)) groups /\
     Forall (fun g => g <> [] /\
               ((len (strip (join [Chr.space] g)) <= max_length)%Z \/
                exists s, g = [s] /\ (max_length < len s)%Z)) groups /\
     (forall i g s rest,
        groups !! i = Some g -> groups !! S i = Some (s :: rest) ->
        (max_length < len (join [Chr.space] g) + len s + 2)%Z)).
Proof.
  split.
  - intros Hshort. unfold chunk_text.
    by destruct (Z.leb_spec (len text) max_length); [|lia].
  - intros Hlong.
    destruct (chunk_text_greedy_groups text max_length Hlong)
      as (groups & Hg & Hc & Hok & Hgreedy).
    exists groups. split; [done|].
    split; [rewrite Hg; apply split_sentences_spec|].
    split; [rewrite Hg; apply split_sentences_unbroken|].
    split; [rewrite Hc; apply map_ext; intros g; apply strip_pack|].
    split.
    + eapply Forall_impl; [exact Hok|]. intros g [Hne Hsize]. split; [done|].
      rewrite <- strip_pack. pose proof (len_strip (pack g)).
      destruct Hsize as [Hfit | (s & -> & Hs)]; [left; lia|].
      destruct (Z.le_gt_cases (len s) max_length) as [Hle|Hgt].
      * left. rewrite strip_pack. simpl. pose proof (len_strip s). lia.
      * right. by exists s.
    + intros i g s rest Hi Hnext. specialize (Hgreedy i g s rest Hi Hnext).
      assert (g <> []) as Hne.
      { rewrite Forall_forall in Hok. apply (Hok g). apply list_elem_of_lookup. by exists i. }
      rewrite pack_join, len_app in Hgreedy by done. unfold len at 2 in Hgreedy.
      cbn [length] in Hgreedy. lia.
Qed.

Lemma concat_map_concat {A B} (f : A -> list B) (ls : list (list A)) :
  concat (map f (concat ls)) = concat (map (fun l => concat (map f l)) ls).
Proof.
  induction ls as [|l ls IH]; [done|]. simpl. by rewrite map_app, concat_app, IH.
Qed.

Lemma words_chunk_text text max_length :
  words (join [Chr.space] (chunk_text text max_length)) = words text.
Proof.
  destruct (Z.le_gt_cases (len text) max_length) as [Hshort|Hlong].
  - unfold chunk_text. by destruct (Z.leb_spec (len text) max_length); [|lia].
  - destruct (chunk_text_groups text max_length Hlong) as (groups & Hg & -> & _).
    rewrite words_join, map_map.
    rewrite (words_sentence_split _ _ (split_sentences_spec text)), <- Hg.
    rewrite concat_map_concat. f_equal. apply map_ext. intros g.
    by rewrite words_strip, words_pack.
Qed.

(** C6: the chunks joined by single spaces are the text up to whitespace:
    both collapse to the same string, and both have the same words in the same
    order, so that chunking drops, repeats and reorders nothing. *)
Theorem chunk_text_round_trip text max_length :
  collapse_whitespace (join [Chr.space] (chunk_text text max_length))
    = collapse_whitespace text
  /\ words (join [Chr.space] (chunk_text text max_length)) = words text.
Proof.
  split; [|apply words_chunk_text].
  by rewrite !collapse_whitespace_words, words_chunk_text.
Qed.

(** ** Voice configuration *)

Section VoiceFacts.

Variable up : N -> list N.

Lemma fold_insert_lookup (entries : list voice_entry) (k : list N) :
  fold_left (fun (m : gmap (list N) TTSConfig) e =>
               <[ upper up (entry_character e) := entry_config e ]> m) entries ∅ !! k
  = entry_config <$> last_entry_for up k entries.
Proof.
  unfold last_entry_for. induction entries as [|e entries IH] using rev_ind; [done|].
  rewrite fold_left_app, rev_app_distr. cbn [fold_left rev app find].
  case_bool_decide as Hk.
  - subst k. by rewrite lookup_insert_eq.
  - by rewrite lookup_insert_ne.
Qed.

(** The table [load_config] builds from a configuration file. *)
Lemma load_config_lookup entries default_config k :
  load_config up (Some (entries, default_config)) !! k =
  match default_config with
  | Some d => if decide (k = lit "DEFAULT") then Some (entry_config d)
              else entry_config <$> last_entry_for up k entries
  | None => entry_config <$> last_entry_for up k entries
  end.
Proof.
  unfold load_config. destruct default_config as [d|]; [|apply fold_insert_lookup].
  case_decide as Hk.
  - subst k. by rewrite lookup_insert_eq.
  - rewrite lookup_insert_ne by done. apply fold_insert_lookup.
Qed.

(** C9: [get_character_config] returns the entry stored under the
    upper-cased speaker when there is one, else the entry [DEFAULT] when there
    is one, else the fallback (alloy, no prompt, speed 1.0); it is a total
    function, and on the empty table it returns the fallback. The match ignores
    case: two speakers with the same upper-case form get the same configuration,
    and on a table loaded from a file a speaker gets the configuration of the
    last entry whose character has the speaker's upper-case form. *)
Theorem get_character_config_resolution (config : gmap (list N) TTSConfig) speaker :
  (forall c, config !! upper up speaker = Some c -> get_character_config up config speaker = c)
  /\ (forall d, config !! upper up speaker = None -> config !! lit "DEFAULT" = Some d ->
        get_character_config up config speaker = d)
  /\ (config !! upper up speaker = None -> config !! lit "DEFAULT" = None ->
        get_character_config up config speaker = fallback_config)
  /\ get_character_config up ∅ speaker = fallback_config
  /\ get_character_config up (load_config up None) speaker = fallback_config
  /\ (forall other, upper up other = upper up speaker ->
        get_character_config up config other = get_character_config up config speaker)
  /\ (forall entries default_config e,
        last_entry_for up (upper up speaker) entries = Some e ->
        upper up speaker <> lit "DEFAULT" ->
        get_character_config up (load_config up (Some (entries, default_config))) speaker
        = entry_config e).
Proof.
  unfold get_character_config. repeat split.
  - by intros c ->.
  - by intros d -> ->.
  - by intros -> ->.
  - by intros other ->.
  - intros entries default_config e He Hne. rewrite load_config_lookup, He.
    destruct default_config; [|done]. by case_decide.
Qed.

End VoiceFacts.

(** ** File names *)

Lemma uint_chars_inj d d' : uint_chars d = uint_chars d' -> d = d'.
Proof.
  revert d'. induction d; intros d' H; destruct d'; simpl in H; try discriminate;
    try reflexivity; injection H as H; f_equal; by apply IHd.
Qed.

Lemma uint_chars_digits d : forallb is_digit (uint_chars d) = true.
Proof. induction d; simpl; try done. Qed.

Lemma decimal_inj n m : decimal n = decimal m -> n = m.
Proof. intros H. by apply DecimalN.Unsigned.to_uint_inj, uint_chars_inj. Qed.

Lemma to_uint_normal n : Decimal.unorm (N.to_uint n) = N.to_uint n.
Proof.
  rewrite <- (DecimalN.Unsigned.to_of (N.to_uint n)).
  by rewrite DecimalN.Unsigned.of_to.
Qed.

Lemma decimal_nonempty n : decimal n <> [].
Proof.
  unfold decimal. pose proof (to_uint_normal n) as H.
  by destruct (N.to_uint n).
Qed.

(** The digits of a number start with a zero only when the number is zero. *)
Lemma decimal_leading_zero n r : decimal n = Chr.zero :: r -> n = 0 /\ r = [].
Proof.
  unfold decimal. intros H. pose proof (to_uint_normal n) as Hn.
  destruct (N.to_uint n) as [|d| | | | | | | | |] eqn:Hd; try discriminate.
  simpl in H. injection H as <-.
  rewrite unorm_D0 in Hn. unfold Decimal.unorm in Hn.
  destruct (Decimal.nzhead d) eqn:Hz; try discriminate.
  - injection Hn as <-. split; [|done].
    rewrite <- (DecimalN.Unsigned.of_to n), Hd. reflexivity.
  - exfalso. by apply nzhead_nonzero in Hz.
Qed.

Lemma zero_pad_inj a b n m :
  replicate a Chr.zero ++ decimal n = replicate b Chr.zero ++ decimal m -> n = m.
Proof.
  revert b. induction a as [|a IH]; intros [|b] H; simpl in H.
  - by apply decimal_inj.
  - apply decimal_leading_zero in H as [_ H].
    apply app_eq_nil in H as [_ H]. by apply decimal_nonempty in H.
  - symmetry in H. apply decimal_leading_zero in H as [_ H].
    apply app_eq_nil in H as [_ H]. by apply decimal_nonempty in H.
  - injection H as H. by apply (IH b).
Qed.

Lemma zero_pad_digits a n : forallb is_digit (replicate a Chr.zero ++ decimal n) = true.
Proof.
  rewrite forallb_app. unfold decimal. rewrite uint_chars_digits, andb_true_r.
  induction a as [|a IH]; simpl; [done|exact IH].
Qed.

Lemma zero_pad_head a n :
  exists c r, replicate a Chr.zero ++ decimal n = c :: r /\ is_digit c = true.
Proof.
  pose proof (zero_pad_digits a n) as H.
  destruct (replicate a Chr.zero ++ decimal n) as [|c r] eqn:He.
  - apply app_eq_nil in He as [_ He]. by apply decimal_nonempty in He.
  - exists c, r. split; [done|]. simpl in H. by apply andb_true_iff in H as [H _].
Qed.

(** Two numbers with the same zero-padded form are equal. *)
Lemma format_d_inj w z1 z2 : format_d w z1 = format_d w z2 -> z1 = z2.
Proof.
  unfold format_d. intros H.
  destruct (Z.ltb_spec z1 0) as [H1|H1]; destruct (Z.ltb_spec z2 0) as [H2|H2];
    cbn [app] in H.
  - injection H as H. apply zero_pad_inj in H. lia.
  - destruct (zero_pad_head (w - length (@nil N) - length (decimal (Z.abs_N z2))) (Z.abs_N z2))
      as (c & r & Hc & Hd).
    rewrite Hc in H. injection H as <- _. done.
  - destruct (zero_pad_head (w - length (@nil N) - length (decimal (Z.abs_N z1))) (Z.abs_N z1))
      as (c & r & Hc & Hd).
    rewrite Hc in H. injection H as -> _. done.
  - apply zero_pad_inj in H. lia.
Qed.

Lemma format_d_no_underscore w z : Chr.underscore ∉ format_d w z.
Proof.
  unfold format_d. intros [H|H]%elem_of_app.
  - destruct (z <? 0)%Z; [|by apply elem_of_nil in H].
    apply list_elem_of_singleton in H. discriminate.
  - pose proof (zero_pad_digits (w - length (if (z <? 0)%Z then [Chr.hyphen] else [])
                                  - length (decimal (Z.abs_N z))) (Z.abs_N z)) as Hd.
    rewrite forallb_forall in Hd. apply list_elem_of_In, Hd in H. discriminate.
Qed.

(** The zero-padded form has at least [w] characters, and exactly [w] when the
    sign and the digits fit. *)
Lemma format_d_length w z :
  length (format_d w z) =
  Nat.max w (length (if (z <? 0)%Z then [Chr.hyphen] else []) + length (decimal (Z.abs_N z))).
Proof.
  unfold format_d. rewrite !length_app, length_replicate. lia.
Qed.

Lemma split_at_first {A} (u : A) l1 r1 l2 r2 :
  u ∉ l1 -> u ∉ l2 -> l1 ++ u :: r1 = l2 ++ u :: r2 -> l1 = l2 /\ r1 = r2.
Proof.
  revert l2. induction l1 as [|x l1 IH]; intros [|y l2] H1 H2 H; simpl in H.
  - by injection H.
  - injection H as -> _. exfalso. apply H2. by left.
  - injection H as -> _. exfalso. apply H1. by left.
  - injection H as -> H. apply IH in H as [-> ->]; [done| |].
    + intros ?. apply H1. by right.
    + intros ?. apply H2. by right.
Qed.

Lemma chunk_suffix_inj k1 k2 :
  (0 <= k1)%Z -> (0 <= k2)%Z -> chunk_suffix k1 = chunk_suffix k2 -> k1 = k2.
Proof.
  unfold chunk_suffix. intros H1 H2 H.
  destruct (Z.ltb_spec 0 k1); destruct (Z.ltb_spec 0 k2); try discriminate; [|lia].
  apply app_inv_head in H. by apply format_d_inj in H.
Qed.

Section FilenameFacts.

Variable alnum : N -> bool.

Lemma generate_filename_parts speaker line_number chunk_index :
  generate_filename alnum speaker line_number chunk_index =
  format_d 4 line_number ++ Chr.underscore :: map (safe_char alnum) speaker
    ++ chunk_suffix chunk_index ++ lit ".mp3".
Proof.
  unfold generate_filename, chunk_suffix.
  rewrite Z.gtb_ltb. destruct (0 <? chunk_index)%Z; [|done].
  by rewrite <- !app_assoc.
Qed.

Lemma safe_char_ascii c : c < 128 -> safe_char alnum c = spec_safe_char c.
Proof.
  intros Hc. unfold safe_char, spec_safe_char, is_word.
  destruct (N.ltb_spec c 128); [|lia].
  by destruct (ascii_alnum c), (c =? Chr.underscore), (c =? Chr.hyphen).
Qed.

Lemma safe_char_unicode c : 128 <= c ->
  safe_char alnum c = if alnum c then c else Chr.underscore.
Proof.
  intros Hc. unfold safe_char, is_word.
  destruct (N.ltb_spec c 128); [lia|].
  destruct (N.eqb_spec c Chr.hyphen) as [->|_]; [done|].
  destruct (N.eqb_spec c Chr.underscore) as [->|_]; [done|].
  by rewrite !orb_false_r.
Qed.

Lemma map_safe_char_ascii speaker :
  Forall (fun c => c < 128) speaker -> map (safe_char alnum) speaker = map spec_safe_char speaker.
Proof.
  induction 1 as [|c s Hc _ IH]; [done|].
  cbn [map]. by rewrite safe_char_ascii, IH.
Qed.

(** C4, as the code has it: the file name is the line number zero-padded to
    4 characters, an underscore, the sanitized speaker, for a chunk index above
    0 the text [_chunk_] and the index zero-padded to 2 characters, and [.mp3].
    Sanitizing keeps the ASCII letters and digits, the underscore, the hyphen
    and every alphanumeric character beyond ASCII, and turns every other
    character into an underscore. For a speaker made of ASCII characters this is
    the file name of the specification, and
    [generate_filename("Alice", 7, 0)] is [0007_Alice.mp3]. *)
Theorem generate_filename_format speaker line_number chunk_index :
  generate_filename alnum speaker line_number chunk_index =
    format_d 4 line_number ++ lit "_" ++ map (safe_char alnum) speaker
    ++ (if (0 <? chunk_index)%Z then lit "_chunk_" ++ format_d 2 chunk_index else [])
    ++ lit ".mp3"
  /\ (forall c, safe_char alnum c =
        if (if c <? 128
            then ascii_alnum c || (c =? Chr.underscore) || (c =? Chr.hyphen)
            else alnum c)
        then c else Chr.underscore)
  /\ (Forall (fun c => c < 128) speaker ->
      generate_filename alnum speaker line_number chunk_index
      = spec_filename speaker line_number chunk_index)
  /\ generate_filename alnum (lit "Alice") 7 0 = lit "0007_Alice.mp3".
Proof.
  split; [apply generate_filename_parts|]. split; [|split; [|reflexivity]].
  - intros c. destruct (N.ltb_spec c 128) as [Hc|Hc].
    + rewrite safe_char_ascii by done. reflexivity.
    + by apply safe_char_unicode.
  - intros Hascii. rewrite generate_filename_parts. unfold spec_filename.
    by rewrite map_safe_char_ascii.
Qed.

(** C5, as the code has it: two triples with the same file name have the
    same line number, and when their speakers sanitize to the same string (as one
    speaker does) and their chunk indices are not negative, the same chunk
    index. So the chunks of one dialogue line never share a file name, and lines
    with different numbers never do. *)
Theorem generate_filename_distinct s1 s2 n1 n2 k1 k2 :
  (0 <= k1)%Z -> (0 <= k2)%Z ->
  generate_filename alnum s1 n1 k1 = generate_filename alnum s2 n2 k2 ->
  n1 = n2 /\ (map (safe_char alnum) s1 = map (safe_char alnum) s2 -> k1 = k2).
Proof.
  intros Hk1 Hk2. rewrite !generate_filename_parts. intros H.
  apply split_at_first in H as [Hn H]; try apply format_d_no_underscore.
  split; [by apply format_d_inj in Hn|].
  intros Hs. rewrite Hs in H. apply app_inv_head, app_inv_tail in H.
  by apply chunk_suffix_inj.
Qed.

End FilenameFacts.

(** The theorem at chunks 1 and 1 of line 12 of the speaker Bob. *)
Lemma generate_filename_distinct_witness :
  ((0 <= 1)%Z /\ (0 <= 1)%Z
   /\ generate_filename latin1_alnum (lit "Bob") 12 1
      = generate_filename latin1_alnum (lit "Bob") 12 1)
  /\ (12 = 12 /\
      (map (safe_char latin1_alnum) (lit "Bob") = map (safe_char latin1_alnum) (lit "Bob")
       -> 1 = 1))%Z.
Proof.
  split; [repeat split; lia|].
  apply (generate_filename_distinct latin1_alnum (lit "Bob") (lit "Bob") 12 12 1 1);
    [lia | lia | reflexivity].
Defined.

(** C4 fails as stated: the e with an acute accent of "José" (U+00E9) is
    outside [[A-Za-z0-9_-]] and is kept. *)
Lemma accented_letter_is_kept :
  generate_filename latin1_alnum [74; 111; 115; 233] 7 0
    = lit "0007_Jos" ++ [233] ++ lit ".mp3"
  /\ spec_filename [74; 111; 115; 233] 7 0 = lit "0007_Jos_.mp3"
  /\ generate_filename latin1_alnum [74; 111; 115; 233] 7 0
     <> spec_filename [74; 111; 115; 233] 7 0.
Proof. split; [reflexivity|]. split; [reflexivity|]. vm_compute. congruence. Qed.

(** C5 fails as stated: the speakers "a!" and "a?" differ and share the file
    name [0001_a_.mp3], and so do chunk 1 of "A" and chunk 0 of "A_chunk_01". *)
Lemma distinct_speakers_share_a_filename :
  (lit "a!", 1%Z, 0%Z) <> (lit "a?", 1%Z, 0%Z)
  /\ generate_filename latin1_alnum (lit "a!") 1 0
     = generate_filename latin1_alnum (lit "a?") 1 0
  /\ (lit "A", 1%Z, 1%Z) <> (lit "A_chunk_01", 1%Z, 0%Z)
  /\ generate_filename latin1_alnum (lit "A") 1 1
     = generate_filename latin1_alnum (lit "A_chunk_01") 1 0.
Proof.
  split; [vm_compute; congruence|]. split; [reflexivity|].
  split; [vm_compute; congruence | reflexivity].
Qed.

(** ** The request to the language model *)

Lemma rstrip_idempotent s : rstrip (rstrip s) = rstrip s.
Proof.
  induction s as [|c s IH]; [done|].
  destruct (rstrip_cons c s) as [(-> & _ & _) | Hr]; [done|].
  rewrite Hr. cbn [rstrip]. rewrite IH. exact Hr.
Qed.

Lemma lstrip_head s :
  lstrip s = [] \/ exists c r, lstrip s = c :: r /\ isspace c = false.
Proof.
  induction s as [|c s IH]; [by left|]. simpl.
  destruct (isspace c) eqn:Hc; [exact IH|]. right. by exists c, s.
Qed.

Lemma strip_idempotent s : strip (strip s) = strip s.
Proof.
  unfold strip at 2 3. destruct (lstrip_head s) as [-> | (c & r & -> & Hc)]; [done|].
  rewrite rstrip_nonspace by done. rewrite strip_nonspace by done.
  by rewrite rstrip_idempotent.
Qed.

Lemma query_ollama_failure status_code response :
  status_code <> 200%Z -> query_ollama (Replied status_code response) = [].
Proof.
  intros Hne. unfold query_ollama.
  destruct status_code as [|p|p]; [done| |done].
  do 8 (destruct p as [p|p|]; try done).
Qed.

(** [query_ollama] returns a trimmed string whatever the request comes to, and
    the empty string when the status is not 200, when the body has no
    [response] field, and when the request raises. *)
Theorem query_ollama_trimmed reply :
  strip (query_ollama reply) = query_ollama reply
  /\ (forall status_code response,
        status_code <> 200%Z -> query_ollama (Replied status_code response) = [])
  /\ query_ollama (Replied 200 None) = []
  /\ query_ollama Raised = [].
Proof.
  split; [|split; [apply query_ollama_failure | done]].
  destruct reply as [status_code response|]; [|done].
  destruct (decide (status_code = 200%Z)) as [->|Hne]; [apply strip_idempotent|].
  by rewrite query_ollama_failure.
Qed.

(** ** Cleaning the text: words and whitespace *)

Lemma words_are_words s : Forall is_word_of (words s).
Proof.
  induction s as [|c s IH]; [constructor|].
  destruct (isspace c) eqn:Hc; [by rewrite words_space|].
  rewrite words_cons_nonspace by done.
  assert (Hone : is_word_of [c]) by (split; [done | simpl; by rewrite Hc]).
  destruct s as [|c' s]; [constructor; [exact Hone | constructor]|].
  destruct (isspace c') eqn:Hc'; [by constructor|].
  destruct (words_nonspace_cons c' s Hc') as (w & ws & Hw). rewrite Hw in *.
  cbn [cons_head]. apply Forall_cons in IH as [[_ Hw1] Hws].
  constructor; [|done]. split; [done|]. simpl. by rewrite Hc.
Qed.

Lemma words_of_word w : is_word_of w -> words w = [w].
Proof.
  intros [Hne Hw]. induction w as [|c w IH]; [done|].
  simpl in Hw. apply andb_true_iff in Hw as [Hc Hw]. apply negb_true_iff in Hc.
  rewrite words_cons_nonspace by done. destruct w as [|c' w]; [done|].
  rewrite IH by done. simpl in Hw. apply andb_true_iff in Hw as [Hc' _].
  apply negb_true_iff in Hc'. by rewrite Hc'.
Qed.

Lemma words_join_words s : words (join [Chr.space] (words s)) = words s.
Proof.
  rewrite words_join. pose proof (words_are_words s) as H.
  induction H as [|w ws Hw _ IH]; [done|].
  cbn [map concat]. by rewrite words_of_word, IH.
Qed.

Lemma collapse_whitespace_idempotent s :
  collapse_whitespace (collapse_whitespace s) = collapse_whitespace s.
Proof. by rewrite !collapse_whitespace_words, words_join_words. Qed.

Lemma strip_collapse_whitespace s : strip (collapse_whitespace s) = collapse_whitespace s.
Proof. unfold collapse_whitespace. apply strip_idempotent. Qed.

Lemma visible_app s t : visible (s ++ t) = visible s ++ visible t.
Proof. apply List.filter_app. Qed.

Lemma visible_sublist s t : s `sublist_of` t -> visible s `sublist_of` visible t.
Proof.
  induction 1 as [|x s t _ IH|x s t _ IH]; simpl; [constructor| |].
  - destruct (negb (isspace x)); [by constructor|done].
  - destruct (negb (isspace x)); [by constructor|done].
Qed.

Lemma lstrip_sublist s : lstrip s `sublist_of` s.
Proof.
  induction s as [|c s IH]; [constructor|]. simpl.
  destruct (isspace c); [by constructor|done].
Qed.

Lemma rstrip_sublist s : rstrip s `sublist_of` s.
Proof.
  induction s as [|c s IH]; [constructor|].
  destruct (rstrip_cons c s) as [(-> & _) | ->]; [apply sublist_nil_l | by constructor].
Qed.

Lemma strip_sublist s : strip s `sublist_of` s.
Proof. unfold strip. etrans; [apply rstrip_sublist | apply lstrip_sublist]. Qed.

Lemma drop_last_quote_sublist t : drop_last_quote t `sublist_of` t.
Proof.
  unfold drop_last_quote. destruct (reverse t) as [|c r] eqn:Hr; [apply sublist_nil_l|].
  destruct (is_quote c); [|done].
  apply (f_equal reverse) in Hr. rewrite reverse_involutive, reverse_cons in Hr.
  rewrite Hr. by apply sublist_inserts_r.
Qed.

Lemma strip_quotes_sublist t : strip_quotes t `sublist_of` t.
Proof.
  destruct t as [|c r]; [done|]. simpl. destruct (is_quote c).
  - constructor. apply drop_last_quote_sublist.
  - apply (drop_last_quote_sublist (c :: r)).
Qed.

Lemma re_delete_sublist matcher skip s : re_delete matcher skip s `sublist_of` s.
Proof.
  revert skip. induction s as [|c s IH]; intros skip; [constructor|].
  cbn [re_delete]. destruct skip as [|k]; [|by constructor].
  destruct (matcher (c :: s)) as [[|n]|]; by constructor.
Qed.

Lemma concat_words s : concat (words s) = visible s.
Proof.
  induction s as [|c s IH]; [done|]. unfold visible in *. cbn [List.filter].
  destruct (isspace c) eqn:Hc; cbn [negb].
  - by rewrite words_space.
  - rewrite words_cons_nonspace by done. rewrite <- IH.
    destruct s as [|c' s]; [done|].
    destruct (isspace c') eqn:Hc'; [done|].
    by destruct (words_nonspace_cons c' s Hc') as (w & ws & ->).
Qed.

Lemma visible_join l : visible (join [Chr.space] l) = concat (map visible l).
Proof.
  induction l as [|p l IH]; [done|]. destruct l as [|q l].
  - simpl. by rewrite app_nil_r.
  - change (join [Chr.space] (p :: q :: l)) with (p ++ [Chr.space] ++ join [Chr.space] (q :: l)).
    rewrite !visible_app, IH. done.
Qed.

Lemma visible_word w : is_word_of w -> visible w = w.
Proof.
  intros [_ Hw]. induction w as [|c w IH]; [done|].
  simpl in *. apply andb_true_iff in Hw as [-> Hw]. by rewrite IH.
Qed.

(** Collapsing whitespace keeps the characters that are not whitespace. *)
Lemma visible_collapse_whitespace s : visible (collapse_whitespace s) = visible s.
Proof.
  rewrite collapse_whitespace_words, visible_join, <- concat_words. f_equal.
  pose proof (words_are_words s) as H.
  induction H as [|w ws Hw _ IH]; [done|]. cbn [map]. by rewrite visible_word, IH.
Qed.

Lemma words_nil_visible s : visible s = [] -> words s = [].
Proof.
  intros H. rewrite <- concat_words in H. pose proof (words_are_words s) as Hw.
  destruct (words s) as [|w l]; [done|]. apply Forall_cons in Hw as [[Hne _] _].
  cbn [concat] in H. by destruct w.
Qed.

Lemma visible_spaces s : Forall (fun c => isspace c = true) s -> visible s = [].
Proof.
  induction 1 as [|c s Hc _ IH]; [done|]. unfold visible in *. cbn [List.filter].
  by rewrite Hc.
Qed.

Section CleaningFacts.
Variable fold : N -> N -> bool.

Lemma clean_text_normal_form text :
  strip (clean_text_for_tts fold text) = clean_text_for_tts fold text
  /\ collapse_whitespace (clean_text_for_tts fold text) = clean_text_for_tts fold text
  /\ clean_text_for_tts fold text
     = join [Chr.space] (words (clean_text_for_tts fold text)).
Proof.
  unfold clean_text_for_tts. split; [apply strip_collapse_whitespace|].
  split; [apply collapse_whitespace_idempotent|].
  rewrite collapse_whitespace_words at 1. by rewrite collapse_whitespace_words, words_join_words.
Qed.

Lemma clean_text_visible_sublist text :
  visible (clean_text_for_tts fold text) `sublist_of` visible text.
Proof.
  unfold clean_text_for_tts. rewrite visible_collapse_whitespace.
  apply visible_sublist.
  etrans; [apply re_delete_sublist|]. etrans; [apply re_delete_sublist|].
  etrans; [apply strip_quotes_sublist | apply strip_sublist].
Qed.

Lemma match_literal_uses pat s rest p :
  match_literal fold pat s = Some rest -> p ∈ pat ->
  exists c, c ∈ s /\ matches_ignorecase fold p c = true.
Proof.
  revert s. induction pat as [|q pat IH]; intros s H Hp; [by apply elem_of_nil in Hp|].
  destruct s as [|c s]; [done|]. cbn [match_literal] in H.
  destruct (matches_ignorecase fold q c) eqn:Hq; [|done].
  apply elem_of_cons in Hp as [->|Hp].
  - exists c. split; [by left|done].
  - destruct (IH s H Hp) as (c' & Hc' & Hm). exists c'. split; [by right|done].
Qed.

Lemma after_spaces_some m s n :
  after_spaces m s = Some n -> exists s', s' `sublist_of` s /\ is_Some (m s').
Proof.
  revert n. induction s as [|c s IH]; intros n H; simpl in H.
  - exists []. by split; [|exists n].
  - destruct (isspace c).
    + destruct (after_spaces m s) as [k|] eqn:Hk.
      * destruct (IH k eq_refl) as (s' & Hs & Hm). exists s'. split; [by constructor|done].
      * exists (c :: s). by split; [|exists n].
    + exists (c :: s). by split; [|exists n].
Qed.

Lemma no_s_sublist s t : s `sublist_of` t -> no_s fold t -> no_s fold s.
Proof.
  unfold no_s. rewrite !Forall_forall. intros Hs Ht c Hc. apply Ht.
  by eapply elem_of_sublist.
Qed.

Lemma match_literal_no_s pat s : 115 ∈ pat -> no_s fold s -> match_literal fold pat s = None.
Proof.
  intros Hp Hs. destruct (match_literal fold pat s) as [rest|] eqn:Hm; [|done].
  destruct (match_literal_uses _ _ _ _ Hm Hp) as (c & Hc & Hmatch).
  unfold no_s in Hs. rewrite Forall_forall in Hs. by rewrite (Hs c Hc) in Hmatch.
Qed.

Lemma match_tag_no_s tag s : 115 ∈ tag -> no_s fold s -> match_tag fold tag s = None.
Proof.
  intros Hp Hs. unfold match_tag.
  destruct (after_spaces _ s) as [n|] eqn:Hn; [|done].
  apply after_spaces_some in Hn as (s' & Hsub & [k Hk]).
  by rewrite match_literal_no_s in Hk by eauto using no_s_sublist.
Qed.

Lemma re_delete_no_match matcher (P : list N -> Prop) s :
  (forall s', P s' -> matcher s' = None) ->
  (forall c s', P (c :: s') -> P s') ->
  P s -> re_delete matcher 0 s = s.
Proof.
  intros Hnone Htail. induction s as [|c s IH]; intros Hs; [done|].
  cbn [re_delete]. rewrite (Hnone _ Hs). f_equal. apply IH. by eapply Htail.
Qed.

Lemma match_said_tags_no_s s : no_s fold s -> match_said_tags fold s = None.
Proof.
  intros Hs. unfold match_said_tags.
  assert (H : forall tag, 115 ∈ tag -> match_tag fold tag s = None)
    by (intros; by apply match_tag_no_s).
  rewrite !H; [done|..]; vm_compute;
    repeat first [by apply list_elem_of_here | apply list_elem_of_further].
Qed.

Lemma match_said_name_no_s s : no_s fold s -> match_said_name fold s = None.
Proof.
  intros Hs. unfold match_said_name.
  destruct (after_spaces _ s) as [n|] eqn:Hn; [|done].
  apply after_spaces_some in Hn as (s' & Hsub & [k Hk]).
  rewrite match_literal_no_s in Hk; [done| |by eauto using no_s_sublist].
  vm_compute. apply list_elem_of_here.
Qed.

Lemma clean_text_blank text :
  Forall (fun c => isspace c = true) text -> clean_text_for_tts fold text = [].
Proof.
  intros H. destruct (clean_text_normal_form text) as (_ & _ & ->).
  rewrite words_nil_visible; [done|].
  pose proof (clean_text_visible_sublist text) as Hsub.
  rewrite (visible_spaces text H) in Hsub. by apply sublist_nil_r in Hsub.
Qed.

(** The text [clean_text_for_tts] returns is in normal form: trimmed, left
    alone by the whitespace clean-up, and equal to its words joined by single
    spaces. *)
Theorem clean_text_for_tts_normalized text :
  strip (clean_text_for_tts fold text) = clean_text_for_tts fold text
  /\ collapse_whitespace (clean_text_for_tts fold text) = clean_text_for_tts fold text
  /\ clean_text_for_tts fold text
     = join [Chr.space] (words (clean_text_for_tts fold text)).
Proof. apply clean_text_normal_form. Qed.

(** [clean_text_for_tts] only deletes: the characters of its result that are
    not whitespace are, in order, among those of the text; and a text of
    whitespace gives the empty string. *)
Theorem clean_text_for_tts_only_deletes text :
  visible (clean_text_for_tts fold text) `sublist_of` visible text
  /\ (Forall (fun c => isspace c = true) text -> clean_text_for_tts fold text = []).
Proof. split; [apply clean_text_visible_sublist | apply clean_text_blank]. Qed.

(** A text without the letter [s], in either case, has no dialogue tag to
    remove: cleaning it comes to trimming, removing one quote at each end, and
    the whitespace clean-up. *)
Theorem clean_text_without_s text :
  Forall (fun c => matches_ignorecase fold 115 c = false) text ->
  clean_text_for_tts fold text = collapse_whitespace (strip_quotes (strip text)).
Proof.
  intros Hs. unfold clean_text_for_tts.
  assert (Ht : no_s fold (strip_quotes (strip text))).
  { eapply no_s_sublist; [|exact Hs].
    etrans; [apply strip_quotes_sublist | apply strip_sublist]. }
  assert (Htail : forall c s', no_s fold (c :: s') -> no_s fold s').
  { intros c s' H. by apply Forall_cons in H as [_ H]. }
  rewrite (re_delete_no_match (match_said_tags fold) (no_s fold))
    by (try done; apply match_said_tags_no_s).
  by rewrite (re_delete_no_match (match_said_name fold) (no_s fold))
    by (try done; apply match_said_name_no_s).
Qed.
End CleaningFacts.

(** The theorem at [  "Who, me?"  ]. *)
Lemma clean_text_without_s_witness :
  Forall (fun c => matches_ignorecase no_unicode_fold 115 c = false)
    (lit "  " ++ [Chr.dquote] ++ lit "Who,  me?" ++ [Chr.dquote] ++ lit " ")
  /\ clean_text_for_tts no_unicode_fold
       (lit "  " ++ [Chr.dquote] ++ lit "Who,  me?" ++ [Chr.dquote] ++ lit " ")
     = lit "Who, me?".
Proof.
  assert (H : Forall (fun c => matches_ignorecase no_unicode_fold 115 c = false)
                (lit "  " ++ [Chr.dquote] ++ lit "Who,  me?" ++ [Chr.dquote] ++ lit " "))
    by (vm_compute; repeat constructor).
  split; [exact H|]. rewrite (clean_text_without_s no_unicode_fold _ H). reflexivity.
Defined.

(** ** Paths *)

Lemma contains_false c s : contains c s = false <-> c ∉ s.
Proof. rewrite <- contains_elem_of. by destruct (contains c s). Qed.

Lemma basename_plain name : slash ∉ name -> basename name = name.
Proof.
  destruct name as [|c rest]; [done|]. intros H. apply not_elem_of_cons in H as [Hc Hr].
  cbn [basename]. apply contains_false in Hr. rewrite Hr.
  by destruct (N.eqb_spec c slash).
Qed.

Lemma basename_app dir name : slash ∉ name -> basename (dir ++ slash :: name) = name.
Proof.
  intros Hn. induction dir as [|c dir IH]; cbn [app basename].
  - apply contains_false in Hn. by rewrite Hn, N.eqb_refl.
  - assert (contains slash (dir ++ slash :: name) = true) as ->; [|done].
    apply contains_elem_of, elem_of_app. right. by left.
Qed.

Lemma basename_joinpath dir name : slash ∉ name -> basename (joinpath dir name) = name.
Proof.
  intros Hn. unfold joinpath. case_bool_decide; [by apply basename_plain|].
  destruct (reverse dir) as [|c r] eqn:Hr; [by apply basename_plain|].
  apply (f_equal reverse) in Hr. rewrite reverse_involutive, reverse_cons in Hr.
  destruct (N.eqb_spec c slash) as [->|_].
  - rewrite Hr, <- app_assoc. by apply basename_app.
  - by apply basename_app.
Qed.

Lemma joinpath_inj dir a b : joinpath dir a = joinpath dir b -> a = b.
Proof.
  unfold joinpath. case_bool_decide as Hdot; [done|].
  destruct (reverse dir) as [|c r]; [done|].
  destruct (c =? slash); intros H; apply app_inv_head in H; [done | by injection H].
Qed.

Lemma format_d_no_slash w z : slash ∉ format_d w z.
Proof.
  unfold format_d. intros [H|H]%elem_of_app.
  - destruct (z <? 0)%Z; [|by apply elem_of_nil in H].
    apply list_elem_of_singleton in H. discriminate.
  - pose proof (zero_pad_digits (w - length (if (z <? 0)%Z then [Chr.hyphen] else [])
                                  - length (decimal (Z.abs_N z))) (Z.abs_N z)) as Hd.
    rewrite forallb_forall in Hd. apply list_elem_of_In, Hd in H. discriminate.
Qed.

Lemma safe_char_no_slash alnum c : safe_char alnum c <> slash.
Proof.
  unfold safe_char. destruct (is_word alnum c || _ || _) eqn:H; [|done].
  intros ->. by vm_compute in H.
Qed.

Lemma generate_filename_no_slash alnum speaker line_number chunk_index :
  slash ∉ generate_filename alnum speaker line_number chunk_index.
Proof.
  rewrite generate_filename_parts. rewrite elem_of_app, elem_of_cons, !elem_of_app.
  intros [H|[H|[H|[H|H]]]].
  - by apply format_d_no_slash in H.
  - discriminate.
  - apply list_elem_of_In, in_map_iff in H as (c & Hc & _). by apply safe_char_no_slash in Hc.
  - unfold chunk_suffix in H. destruct (0 <? chunk_index)%Z; [|by apply elem_of_nil in H].
    apply elem_of_app in H as [H|H]; [|by apply format_d_no_slash in H].
    vm_compute in H. by repeat (apply elem_of_cons in H as [H|H]; [discriminate|]);
      apply elem_of_nil in H.
  - vm_compute in H. by repeat (apply elem_of_cons in H as [H|H]; [discriminate|]);
      apply elem_of_nil in H.
Qed.

(** ** Synthesis: the run as a fold over the planned chunks *)

Section SynthesisFacts.
Variable lower : list N -> list N.
Variable up : N -> list N.
Variable alnum : N -> bool.
Variable fold : N -> N -> bool.
Variable config : gmap (list N) TTSConfig.
Variable output_dir : list N.

Lemma process_chunks_fold tts disk speaker line_number char_config chunk_index text_chunks st :
  process_chunks lower alnum output_dir tts disk speaker line_number char_config
    chunk_index text_chunks st =
  fold_left (synthesize tts disk)
    (imap (fun i chunk =>
             (mkAudioFile
                (joinpath output_dir
                   (generate_filename alnum speaker line_number (Z.of_nat (chunk_index + i))))
                speaker line_number chunk None,
              tts_payload lower chunk (voice char_config) (prompt char_config)
                (speed char_config)))
          text_chunks) st.
Proof.
  revert chunk_index st. induction text_chunks as [|chunk rest IH]; intros i st; [done|].
  cbn [process_chunks imap fold_left]. rewrite IH, Nat.add_0_r.
  f_equal. apply imap_ext. intros j x _. simpl. by rewrite Nat.add_succ_r.
Qed.

Lemma process_lines_plan tts disk dialogue_lines st :
  process_lines lower up alnum fold config output_dir tts disk dialogue_lines st =
  fold_left (synthesize tts disk)
    (plan lower up alnum fold config output_dir dialogue_lines) st.
Proof.
  revert st. induction dialogue_lines as [|dialogue rest IH]; intros st; [done|].
  unfold plan. cbn [process_lines map concat]. rewrite fold_left_app.
  fold (plan lower up alnum fold config output_dir rest). unfold planned_chunks.
  destruct (is_empty (strip (clean_text_for_tts fold (entry_text dialogue)))).
  - apply IH.
  - rewrite IH, process_chunks_fold. done.
Qed.

(** One chunk: the three ways it can go. *)
Lemma synthesize_cases tts disk st record request :
  let st' := synthesize tts disk st (record, request) in
  (is_Some (files st !! file_path record) /\
   st' = mkTtsState (files st) (requests st) (generated_files st ++ [record]))
  \/ (files st !! file_path record = None /\
      requests st' = requests st ++ [request] /\
      exists audio_data,
        files st' = <[ file_path record := audio_data ]> (files st) /\
        generated_files st' = generated_files st ++ [record])
  \/ (files st !! file_path record = None /\
      requests st' = requests st ++ [request] /\
      generated_files st' = generated_files st /\
      (files st' = files st \/
       exists partial, files st' = <[ file_path record := partial ]> (files st))).
Proof.
  cbn zeta. unfold synthesize. case_bool_decide as Hex; [by left|]. right.
  assert (Hnone : files st !! file_path record = None).
  { destruct (files st !! file_path record) eqn:H; [|done]. exfalso. apply Hex. eauto. }
  destruct (audio_of_reply _) as [[|b audio_data]|].
  - right. repeat split; try done. by left.
  - unfold save_audio. destruct (disk _) as [|[partial|]]; cbn [files requests generated_files].
    + left. repeat split; try done. by eexists.
    + right. repeat split; try done. right. by eexists.
    + right. repeat split; try done. by left.
  - right. repeat split; try done. by left.
Qed.
End SynthesisFacts.

Lemma filter_sublist_impl {A} (p q : A -> bool) l :
  (forall x, p x = true -> q x = true) -> List.filter p l `sublist_of` List.filter q l.
Proof.
  intros H. induction l as [|x l IH]; [constructor|]. simpl.
  destruct (p x) eqn:Hp; [rewrite (H x Hp); by constructor|].
  destruct (q x); [by constructor|done].
Qed.

Lemma sublist_map {A B} (f : A -> B) l1 l2 :
  l1 `sublist_of` l2 -> map f l1 `sublist_of` map f l2.
Proof. induction 1; simpl; by constructor. Qed.

Lemma missing_weaken (files1 files2 : gmap (list N) (list Byte.byte)) planned :
  files1 ⊆ files2 -> missing files2 planned = true -> missing files1 planned = true.
Proof.
  unfold missing. intros Hsub. rewrite !negb_true_iff, !bool_decide_eq_false.
  intros Hno H. apply Hno. by eapply lookup_weaken_is_Some.
Qed.

Lemma run_spec tts disk items st :
  exists new_records new_requests,
    generated_files (fold_left (synthesize tts disk) items st)
      = generated_files st ++ new_records /\
    requests (fold_left (synthesize tts disk) items st) = requests st ++ new_requests /\
    new_records `sublist_of` map fst items /\
    new_requests `sublist_of` map snd (List.filter (missing (files st)) items) /\
    files st ⊆ files (fold_left (synthesize tts disk) items st) /\
    Forall (fun r => is_Some (files (fold_left (synthesize tts disk) items st) !! file_path r))
      new_records.
Proof.
  revert st. induction items as [|[record request] rest IH]; intros st.
  - exists [], []. simpl. rewrite !app_nil_r. by repeat split.
  - cbn [fold_left].
    destruct (IH (synthesize tts disk st (record, request)))
      as (recs & reqs & Hrecs & Hreqs & Hsub1 & Hsub2 & Hfiles & Hex).
    set (st1 := synthesize tts disk st (record, request)) in *.
    set (st' := fold_left (synthesize tts disk) rest st1) in *.
    destruct (synthesize_cases tts disk st record request)
      as [[Hsome Hst1] | [(Hnone & Hq & data & Hf & Hg) | (Hnone & Hq & Hg & Hf)]];
      fold st1 in Hst1 || fold st1 in Hq, Hf, Hg.
    + assert (Hmiss : missing (files st) (record, request) = false).
      { unfold missing. simpl. by rewrite bool_decide_eq_true_2. }
      rewrite Hst1 in *. cbn [files requests generated_files] in *.
      exists (record :: recs), reqs. cbn [List.filter map fst]. rewrite Hmiss.
      split; [by rewrite Hrecs, <- app_assoc|]. split; [done|].
      split; [by constructor|]. split; [done|]. split; [done|].
      constructor; [|done]. by eapply lookup_weaken_is_Some.
    + assert (Hmiss : missing (files st) (record, request) = true).
      { unfold missing. simpl. rewrite bool_decide_eq_false_2; [done|].
        rewrite Hnone. by intros [? ?]. }
      assert (Hgrow : files st ⊆ files st1).
      { rewrite Hf. by apply insert_subseteq. }
      exists (record :: recs), (request :: reqs). cbn [List.filter map fst snd]. rewrite Hmiss.
      split; [by rewrite Hrecs, Hg, <- app_assoc|].
      split; [by rewrite Hreqs, Hq, <- app_assoc|].
      split; [by constructor|].
      split.
      { cbn [map snd]. constructor. etrans; [exact Hsub2|].
        apply sublist_map.
        apply filter_sublist_impl. intros x. by apply missing_weaken. }
      split; [by etrans|].
      constructor; [|done]. eapply lookup_weaken_is_Some; [|exact Hfiles].
      rewrite Hf, lookup_insert_eq. eauto.
    + assert (Hmiss : missing (files st) (record, request) = true).
      { unfold missing. simpl. rewrite bool_decide_eq_false_2; [done|].
        rewrite Hnone. by intros [? ?]. }
      assert (Hgrow : files st ⊆ files st1).
      { destruct Hf as [-> | [partial ->]]; [done | by apply insert_subseteq]. }
      exists recs, (request :: reqs). cbn [List.filter map fst snd]. rewrite Hmiss.
      split; [by rewrite Hrecs, Hg|].
      split; [by rewrite Hreqs, Hq, <- app_assoc|].
      split; [by constructor|].
      split.
      { cbn [map snd]. constructor. etrans; [exact Hsub2|].
        apply sublist_map.
        apply filter_sublist_impl. intros x. by apply missing_weaken. }
      split; [by etrans|done].
Qed.

Lemma run_all_present tts disk items st :
  Forall (fun planned => is_Some (files st !! file_path planned.1)) items ->
  fold_left (synthesize tts disk) items st =
  mkTtsState (files st) (requests st) (generated_files st ++ map fst items).
Proof.
  revert st. induction items as [|[record request] rest IH]; intros st H.
  - simpl. rewrite app_nil_r. by destruct st.
  - apply Forall_cons in H as [Hhere Hrest]. cbn [fold_left].
    assert (Hst : synthesize tts disk st (record, request) =
                  mkTtsState (files st) (requests st) (generated_files st ++ [record])).
    { unfold synthesize. by rewrite bool_decide_eq_true_2. }
    rewrite Hst, IH by done. cbn [files requests generated_files map fst].
    by rewrite <- app_assoc.
Qed.

Lemma synthesize_grows tts disk st planned : files st ⊆ files (synthesize tts disk st planned).
Proof.
  destruct planned as [record request].
  destruct (synthesize_cases tts disk st record request)
    as [[_ ->] | [(Hnone & _ & data & -> & _) | (Hnone & _ & _ & [-> | [partial ->]])]];
    try done; by apply insert_subseteq.
Qed.

Lemma run_grows tts disk items st :
  files st ⊆ files (fold_left (synthesize tts disk) items st).
Proof. by destruct (run_spec tts disk items st) as (? & ? & _ & _ & _ & _ & H & _). Qed.

(** A second run records what the first one recorded. *)
Lemma run_again tts1 disk1 tts2 disk2 items st1 st2 :
  (forall path, is_Some (files (fold_left (synthesize tts1 disk1) items st1) !! path) ->
                is_Some (files st2 !! path)) ->
  exists new1 new2,
    generated_files (fold_left (synthesize tts1 disk1) items st1)
      = generated_files st1 ++ new1 /\
    generated_files (fold_left (synthesize tts2 disk2) items st2)
      = generated_files st2 ++ new2 /\
    new1 `sublist_of` new2.
Proof.
  revert st1 st2. induction items as [|[record request] rest IH]; intros st1 st2 Hdom.
  - exists [], []. simpl. by rewrite !app_nil_r.
  - cbn [fold_left] in *.
    pose proof (synthesize_cases tts1 disk1 st1 record request) as Ca.
    pose proof (synthesize_cases tts2 disk2 st2 record request) as Cb.
    pose proof (synthesize_grows tts2 disk2 st2 (record, request)) as Gb.
    pose proof (run_grows tts1 disk1 rest (synthesize tts1 disk1 st1 (record, request)))
      as Gfinal.
    cbn zeta in Ca, Cb.
    remember (synthesize tts1 disk1 st1 (record, request)) as a eqn:Ea.
    remember (synthesize tts2 disk2 st2 (record, request)) as b eqn:Eb.
    clear Ea Eb.
    destruct (IH a b) as (new1 & new2 & H1 & H2 & Hsub).
    { intros path Hp. eapply lookup_weaken_is_Some; [by apply Hdom | exact Gb]. }
    assert (Hfinal : forall path, is_Some (files a !! path) -> is_Some (files st2 !! path)).
    { intros path Hp. apply Hdom. by eapply lookup_weaken_is_Some. }
    assert (Hb : is_Some (files st2 !! file_path record) ->
                 generated_files b = generated_files st2 ++ [record]).
    { intros [x Hx].
      destruct Cb as [[_ ->] | [(Hnone & _) | (Hnone & _)]]; [done|congruence..]. }
    assert (Hb' : generated_files b = generated_files st2 ++ [record] \/
                  generated_files b = generated_files st2).
    { destruct Cb as [[_ ->] | [(_ & _ & data & _ & ->) | (_ & _ & -> & _)]]; auto. }
    destruct Ca as [[Hsome Ha] | [(Hnone & _ & data & Hf & Hg) | (Hnone & _ & Hg & _)]].
    + exists (record :: new1), (record :: new2).
      rewrite H1, H2, Hb, Ha; cbn [generated_files]; rewrite <- ?app_assoc.
      * repeat split; try done. by constructor.
      * apply Hfinal. by rewrite Ha.
    + exists (record :: new1), (record :: new2).
      rewrite H1, H2, Hb, Hg; rewrite <- ?app_assoc.
      * repeat split; try done. by constructor.
      * apply Hfinal. rewrite Hf, lookup_insert_eq. eauto.
    + destruct Hb' as [Hb'|Hb'].
      * exists new1, (record :: new2). rewrite H1, H2, Hb', Hg, <- app_assoc.
        repeat split; try done. by constructor.
      * exists new1, new2. by rewrite H1, H2, Hb', Hg.
Qed.

Lemma run_fresh tts disk items st :
  NoDup (map (fun planned => file_path planned.1) items) ->
  Forall (fun planned => files st !! file_path planned.1 = None) items ->
  (forall k request, exists b content, tts k request = Answered 200 (b :: content)) ->
  (forall k, disk k = Written) ->
  generated_files (fold_left (synthesize tts disk) items st)
    = generated_files st ++ map fst items
  /\ requests (fold_left (synthesize tts disk) items st) = requests st ++ map snd items
  /\ dom (files (fold_left (synthesize tts disk) items st))
     = dom (files st) ∪ list_to_set (map (fun planned => file_path planned.1) items).
Proof.
  intros Hnodup Hnew Htts Hdisk. revert st Hnodup Hnew.
  induction items as [|[record request] rest IH]; intros st Hnodup Hnew.
  - simpl. rewrite !app_nil_r. split; [done|]. split; [done|]. by rewrite (right_id_L ∅ (∪)).
  - cbn [fold_left map] in *. apply NoDup_cons in Hnodup as [Hnotin Hnodup].
    apply Forall_cons in Hnew as [Hhere Hnew]. simpl in Hhere, Hnotin.
    destruct (Htts (length (requests st)) request) as (b & content & Hreply).
    assert (Hst : synthesize tts disk st (record, request) =
      mkTtsState (<[ file_path record := b :: content ]> (files st))
        (requests st ++ [request]) (generated_files st ++ [record])).
    { unfold synthesize. rewrite bool_decide_eq_false_2 by (rewrite Hhere; by intros [? ?]).
      by rewrite Hreply, Hdisk. }
    rewrite Hst. destruct (IH (mkTtsState (<[ file_path record := b :: content ]> (files st))
        (requests st ++ [request]) (generated_files st ++ [record]))) as (Hg & Hq & Hd);
      [done| |].
    { cbn [files]. rewrite Forall_forall in Hnew |- *. intros planned Hin.
      rewrite lookup_insert_ne; [by apply Hnew|].
      intros Heq. apply Hnotin. rewrite Heq.
      apply list_elem_of_In, in_map_iff. exists planned. split; [done|].
      by apply list_elem_of_In. }
    cbn [files requests generated_files] in *.
    rewrite Hg, Hq, Hd, <- !app_assoc. split; [done|]. split; [done|].
    rewrite dom_insert_L. cbn [list_to_set fst].
    by rewrite (comm_L (∪) {[file_path record]} (dom (files st))), <- (assoc_L (∪)).
Qed.

Lemma generate_filename_line alnum s1 s2 n1 n2 k1 k2 :
  generate_filename alnum s1 n1 k1 = generate_filename alnum s2 n2 k2 -> n1 = n2.
Proof.
  rewrite !generate_filename_parts. intros H.
  apply split_at_first in H as [Hn _]; try apply format_d_no_underscore.
  by apply format_d_inj in Hn.
Qed.

Lemma generate_filename_chunk alnum speaker n (i j : nat) :
  generate_filename alnum speaker n (Z.of_nat i) = generate_filename alnum speaker n (Z.of_nat j)
  -> i = j.
Proof.
  rewrite !generate_filename_parts. intros H.
  apply app_inv_head in H. injection H as H. apply app_inv_head, app_inv_tail in H.
  apply chunk_suffix_inj in H; lia.
Qed.

Section PlanFacts.
Variable lower : list N -> list N.
Variable up : N -> list N.
Variable alnum : N -> bool.
Variable fold : N -> N -> bool.
Variable config : gmap (list N) TTSConfig.
Variable output_dir : list N.

Lemma planned_chunks_lookup dialogue i planned :
  planned_chunks lower up alnum fold config output_dir dialogue !! i = Some planned ->
  file_path planned.1 =
    joinpath output_dir
      (generate_filename alnum (entry_speaker dialogue) (entry_line_number dialogue)
         (Z.of_nat i))
  /\ audio_speaker planned.1 = entry_speaker dialogue
  /\ audio_line_number planned.1 = entry_line_number dialogue
  /\ chunk_text (clean_text_for_tts fold (entry_text dialogue)) 4000 !! i
     = Some (audio_text planned.1).
Proof.
  unfold planned_chunks.
  destruct (is_empty (strip (clean_text_for_tts fold (entry_text dialogue)))); [done|].
  rewrite list_lookup_imap. destruct (chunk_text _ _ !! i) as [chunk|]; [|done].
  simpl. by intros [= <-].
Qed.

Lemma planned_chunks_NoDup dialogue :
  NoDup (map (fun planned => file_path planned.1)
           (planned_chunks lower up alnum fold config output_dir dialogue)).
Proof.
  apply NoDup_alt. intros i j path Hi Hj.
  change (map ?f ?l) with (f <$> l) in Hi, Hj. rewrite list_lookup_fmap in Hi, Hj.
  destruct (planned_chunks _ _ _ _ _ _ dialogue !! i) as [a|] eqn:Ha; [|done].
  destruct (planned_chunks _ _ _ _ _ _ dialogue !! j) as [b|] eqn:Hb; [|done].
  apply planned_chunks_lookup in Ha as [Ha _]. apply planned_chunks_lookup in Hb as [Hb _].
  simpl in Hi, Hj. injection Hi as Hi. injection Hj as Hj.
  rewrite Ha in Hi. rewrite Hb in Hj. rewrite <- Hj in Hi.
  by apply joinpath_inj, generate_filename_chunk in Hi.
Qed.

Lemma plan_paths_NoDup dialogue_lines :
  NoDup (map entry_line_number dialogue_lines) ->
  NoDup (map (fun planned => file_path planned.1)
           (plan lower up alnum fold config output_dir dialogue_lines)).
Proof.
  induction dialogue_lines as [|dialogue rest IH]; intros Hnodup; [constructor|].
  cbn [map] in Hnodup. apply NoDup_cons in Hnodup as [Hnotin Hnodup].
  unfold plan. cbn [map concat]. rewrite map_app.
  apply NoDup_app. split; [apply planned_chunks_NoDup|]. split; [|by apply IH].
  intros path Hhere Hrest. apply Hnotin.
  apply list_elem_of_In, in_map_iff in Hhere as (a & <- & Ha).
  apply list_elem_of_In, in_map_iff in Hrest as (b & Hpath & Hb).
  apply list_elem_of_In, list_elem_of_lookup in Ha as [i Ha].
  apply in_concat in Hb as (chunks & Hchunks & Hb).
  apply in_map_iff in Hchunks as (other & <- & Hother).
  apply list_elem_of_In, list_elem_of_lookup in Hb as [j Hb].
  apply planned_chunks_lookup in Ha as [Ha _]. apply planned_chunks_lookup in Hb as [Hb _].
  rewrite Ha, Hb in Hpath. apply joinpath_inj, generate_filename_line in Hpath.
  rewrite <- Hpath. apply list_elem_of_In, in_map. done.
Qed.
End PlanFacts.

Section RunFacts.
Variable lower : list N -> list N.
Variable up : N -> list N.
Variable alnum : N -> bool.
Variable fold : N -> N -> bool.
Variable config : gmap (list N) TTSConfig.
Variable output_dir : list N.

(** The loops of [process_dialogue_file] are one pass over the planned chunks. *)
Lemma process_dialogue_file_plan tts disk dialogue_lines files0 :
  process_dialogue_file lower up alnum fold config output_dir tts disk
    (Some (Some dialogue_lines)) files0 =
  fold_left (synthesize tts disk) (plan lower up alnum fold config output_dir dialogue_lines)
    (mkTtsState files0 [] []).
Proof. apply process_lines_plan. Qed.

Lemma plan_elem dialogue_lines planned :
  planned ∈ plan lower up alnum fold config output_dir dialogue_lines ->
  exists dialogue i,
    dialogue ∈ dialogue_lines /\
    planned_chunks lower up alnum fold config output_dir dialogue !! i = Some planned.
Proof.
  unfold plan. intros H. apply list_elem_of_In, in_concat in H as (chunks & Hc & H).
  apply in_map_iff in Hc as (dialogue & <- & Hd).
  apply list_elem_of_In, list_elem_of_lookup in H as [i Hi].
  exists dialogue, i. split; [by apply list_elem_of_In | done].
Qed.

(** [process_dialogue_file] is one pass, in order, over the chunks of the
    dialogue lines whose cleaned text is not empty, each chunk with the record
    and the request of [plan]; a dialogue file that cannot be loaded, or that
    has no [dialogue] array, gives no record and no request and leaves the
    files as they are. *)
Theorem process_dialogue_file_run tts disk dialogue_data files0 :
  process_dialogue_file lower up alnum fold config output_dir tts disk dialogue_data files0
  = match dialogue_data with
    | Some (Some dialogue_lines) =>
        fold_left (synthesize tts disk)
          (plan lower up alnum fold config output_dir dialogue_lines)
          (mkTtsState files0 [] [])
    | _ => mkTtsState files0 [] []
    end.
Proof. destruct dialogue_data as [[dialogue_lines|]|]; [apply process_lines_plan|done..]. Qed.

(** The records [process_dialogue_file] returns are planned chunks in the
    order of the plan; the file of each exists when the run ends; each carries
    the speaker and the line number of a dialogue line, a chunk of its cleaned
    text, and the path of the output directory joined with the file name of the
    speaker, the line and the index of the chunk. *)
Theorem process_dialogue_file_records tts disk dialogue_lines files0 :
  generated_files (process_dialogue_file lower up alnum fold config output_dir tts disk
                     (Some (Some dialogue_lines)) files0)
    `sublist_of` map fst (plan lower up alnum fold config output_dir dialogue_lines)
  /\ Forall (fun record =>
       is_Some (files (process_dialogue_file lower up alnum fold config output_dir tts disk
                         (Some (Some dialogue_lines)) files0) !! file_path record)
       /\ exists dialogue (chunk_index : nat),
            dialogue ∈ dialogue_lines /\
            audio_speaker record = entry_speaker dialogue /\
            audio_line_number record = entry_line_number dialogue /\
            chunk_text (clean_text_for_tts fold (entry_text dialogue)) 4000 !! chunk_index
              = Some (audio_text record) /\
            file_path record =
              joinpath output_dir
                (generate_filename alnum (entry_speaker dialogue)
                   (entry_line_number dialogue) (Z.of_nat chunk_index)) /\
            basename (file_path record) =
              generate_filename alnum (entry_speaker dialogue)
                (entry_line_number dialogue) (Z.of_nat chunk_index))
     (generated_files (process_dialogue_file lower up alnum fold config output_dir tts disk
                         (Some (Some dialogue_lines)) files0)).
Proof.
  rewrite process_dialogue_file_plan.
  destruct (run_spec tts disk (plan lower up alnum fold config output_dir dialogue_lines)
              (mkTtsState files0 [] [])) as (recs & reqs & Hg & _ & Hsub & _ & _ & Hex).
  cbn [generated_files app] in Hg. rewrite Hg. split; [done|].
  rewrite Forall_forall in Hex |- *. intros record Hin. split; [by apply Hex|].
  pose proof (elem_of_sublist _ _ _ Hin Hsub) as Hp.
  apply list_elem_of_In, in_map_iff in Hp as (planned & <- & Hp).
  apply list_elem_of_In, plan_elem in Hp as (dialogue & i & Hd & Hi).
  apply planned_chunks_lookup in Hi as (Hpath & Hs & Hn & Hc).
  exists dialogue, i. repeat (split; [done|]).
  rewrite Hpath. apply basename_joinpath, generate_filename_no_slash.
Qed.

(** [process_dialogue_file] never touches a file that was there before the
    run, and sends requests only for planned chunks whose file was missing, in
    the order of the plan, at most one for each. *)
Theorem process_dialogue_file_keeps_files tts disk dialogue_lines files0 :
  files0 ⊆ files (process_dialogue_file lower up alnum fold config output_dir tts disk
                    (Some (Some dialogue_lines)) files0)
  /\ requests (process_dialogue_file lower up alnum fold config output_dir tts disk
                 (Some (Some dialogue_lines)) files0)
     `sublist_of`
     map snd (List.filter (missing files0)
                (plan lower up alnum fold config output_dir dialogue_lines))
  /\ (length (requests (process_dialogue_file lower up alnum fold config output_dir tts disk
                          (Some (Some dialogue_lines)) files0))
      <= length (List.filter (missing files0)
                   (plan lower up alnum fold config output_dir dialogue_lines)))%nat.
Proof.
  rewrite process_dialogue_file_plan.
  destruct (run_spec tts disk (plan lower up alnum fold config output_dir dialogue_lines)
              (mkTtsState files0 [] [])) as (recs & reqs & _ & Hq & _ & Hsub & Hfiles & _).
  cbn [requests files app] in *. rewrite Hq. split; [done|]. split; [done|].
  apply sublist_length in Hsub. by rewrite length_map in Hsub.
Qed.

(** When every planned file exists already, [process_dialogue_file] sends no
    request, writes nothing, and returns a record for every planned chunk. *)
Theorem process_dialogue_file_resume tts disk dialogue_lines files0 :
  Forall (fun planned => is_Some (files0 !! file_path planned.1))
    (plan lower up alnum fold config output_dir dialogue_lines) ->
  process_dialogue_file lower up alnum fold config output_dir tts disk
    (Some (Some dialogue_lines)) files0
  = mkTtsState files0 []
      (map fst (plan lower up alnum fold config output_dir dialogue_lines)).
Proof. intros H. rewrite process_dialogue_file_plan. by rewrite run_all_present. Qed.

(** Running again on the files a first run left: whatever the service and the
    disk do the second time, the records of the first run are among those of the
    second, in order; and after a first run that recorded every planned chunk
    the second run sends no request, writes nothing and returns the same
    records. *)
Theorem process_dialogue_file_rerun tts1 disk1 tts2 disk2 dialogue_data files0 :
  generated_files (process_dialogue_file lower up alnum fold config output_dir tts1 disk1
                     dialogue_data files0)
    `sublist_of`
    generated_files
      (process_dialogue_file lower up alnum fold config output_dir tts2 disk2 dialogue_data
         (files (process_dialogue_file lower up alnum fold config output_dir tts1 disk1
                   dialogue_data files0)))
  /\ (forall dialogue_lines,
        dialogue_data = Some (Some dialogue_lines) ->
        generated_files (process_dialogue_file lower up alnum fold config output_dir tts1 disk1
                           dialogue_data files0)
          = map fst (plan lower up alnum fold config output_dir dialogue_lines) ->
        process_dialogue_file lower up alnum fold config output_dir tts2 disk2 dialogue_data
          (files (process_dialogue_file lower up alnum fold config output_dir tts1 disk1
                    dialogue_data files0))
        = mkTtsState
            (files (process_dialogue_file lower up alnum fold config output_dir tts1 disk1
                      dialogue_data files0))
            []
            (generated_files (process_dialogue_file lower up alnum fold config output_dir
                                tts1 disk1 dialogue_data files0))).
Proof.
  split.
  - destruct dialogue_data as [[dialogue_lines|]|]; try done.
    rewrite !process_dialogue_file_plan.
    destruct (run_again tts1 disk1 tts2 disk2
                (plan lower up alnum fold config output_dir dialogue_lines)
                (mkTtsState files0 [] [])
                (mkTtsState (files (fold_left (synthesize tts1 disk1)
                   (plan lower up alnum fold config output_dir dialogue_lines)
                   (mkTtsState files0 [] []))) [] []))
      as (new1 & new2 & -> & -> & Hsub); done.
  - intros dialogue_lines -> Hall. rewrite Hall.
    rewrite !process_dialogue_file_plan in *. rewrite run_all_present; [done|].
    destruct (run_spec tts1 disk1 (plan lower up alnum fold config output_dir dialogue_lines)
                (mkTtsState files0 [] [])) as (recs & reqs & Hg & _ & _ & _ & _ & Hex).
    cbn [generated_files app files] in *. rewrite Hg in Hall. subst recs.
    apply Forall_forall. intros planned Hin.
    rewrite Forall_forall in Hex. apply Hex.
    apply list_elem_of_In, in_map. by apply list_elem_of_In.
Qed.

(** Two records of a run whose dialogue lines have distinct line numbers never
    name the same file. *)
Theorem process_dialogue_file_distinct_paths tts disk dialogue_lines files0 :
  NoDup (map entry_line_number dialogue_lines) ->
  NoDup (map file_path
           (generated_files
              (process_dialogue_file lower up alnum fold config output_dir tts disk
                 (Some (Some dialogue_lines)) files0))).
Proof.
  intros Hnodup. rewrite process_dialogue_file_plan.
  destruct (run_spec tts disk (plan lower up alnum fold config output_dir dialogue_lines)
              (mkTtsState files0 [] [])) as (recs & reqs & Hg & _ & Hsub & _).
  cbn [generated_files app] in Hg. rewrite Hg.
  eapply sublist_NoDup; [|apply sublist_map; exact Hsub].
  rewrite map_map. by apply plan_paths_NoDup.
Qed.

(** A run in which no planned file exists, the line numbers are distinct, the
    service answers every request with status 200 and audio that is not empty,
    and every file can be written: one request and one record for every planned
    chunk, in the order of the plan, and the files afterwards are those from
    before and the planned ones. *)
Theorem process_dialogue_file_fresh tts disk dialogue_lines files0 :
  NoDup (map entry_line_number dialogue_lines) ->
  Forall (fun planned => files0 !! file_path planned.1 = None)
    (plan lower up alnum fold config output_dir dialogue_lines) ->
  (forall k request, exists b content, tts k request = Answered 200 (b :: content)) ->
  (forall k, disk k = Written) ->
  generated_files (process_dialogue_file lower up alnum fold config output_dir tts disk
                     (Some (Some dialogue_lines)) files0)
    = map fst (plan lower up alnum fold config output_dir dialogue_lines)
  /\ requests (process_dialogue_file lower up alnum fold config output_dir tts disk
                 (Some (Some dialogue_lines)) files0)
     = map snd (plan lower up alnum fold config output_dir dialogue_lines)
  /\ dom (files (process_dialogue_file lower up alnum fold config output_dir tts disk
                   (Some (Some dialogue_lines)) files0))
     = dom files0 ∪ list_to_set (map (fun planned => file_path planned.1)
                                   (plan lower up alnum fold config output_dir dialogue_lines)).
Proof.
  intros Hnodup Hnew Htts Hdisk. rewrite process_dialogue_file_plan.
  apply (run_fresh tts disk _ (mkTtsState files0 [] [])); try done.
  by apply plan_paths_NoDup.
Qed.
End RunFacts.

(** ** Sorting and the playlist *)

Lemma insert_sorted_Permutation {A} (before : A -> A -> bool) x l :
  insert_sorted before x l ≡ₚ x :: l.
Proof.
  induction l as [|y l IH]; [done|]. simpl. destruct (before y x); [|done].
  rewrite IH. apply Permutation_swap.
Qed.

Lemma py_sorted_Permutation {A} (before : A -> A -> bool) l : py_sorted before l ≡ₚ l.
Proof.
  induction l as [|x l IH]; [done|]. unfold py_sorted in *. cbn [foldr].
  by rewrite insert_sorted_Permutation, IH.
Qed.

Section Sorting.
Context {A : Type}.
Variable before : A -> A -> bool.
Hypothesis before_asym : forall a b, before a b = true -> before b a = false.
Hypothesis not_before_trans :
  forall a b c, before b a = false -> before c b = false -> before c a = false.

Lemma insert_sorted_sorted x l :
  StronglySorted (fun a b => before b a = false) l ->
  StronglySorted (fun a b => before b a = false) (insert_sorted before x l).
Proof.
  induction 1 as [|y l Hl IH Hy]; [repeat constructor|]. cbn [insert_sorted].
  destruct (before y x) eqn:Hyx.
  - constructor; [done|]. rewrite insert_sorted_Permutation. constructor; [|done].
    by apply before_asym.
  - constructor; [by constructor|]. constructor; [done|].
    eapply Forall_impl; [exact Hy|]. intros z Hz. cbn beta in *. by eapply not_before_trans.
Qed.

Lemma py_sorted_sorted l :
  StronglySorted (fun a b => before b a = false) (py_sorted before l).
Proof.
  induction l as [|x l IH]; [constructor|]. by apply insert_sorted_sorted.
Qed.
End Sorting.

Lemma py_sorted_id {A} (before : A -> A -> bool) l :
  StronglySorted (fun a b => before b a = false) l -> py_sorted before l = l.
Proof.
  induction 1 as [|x l Hl IH Hx]; [done|]. unfold py_sorted in *. cbn [foldr]. rewrite IH.
  destruct l as [|y l]; [done|]. cbn [insert_sorted].
  apply Forall_cons in Hx as [Hxy _]. by rewrite Hxy.
Qed.

Lemma insert_sorted_stable {A} `{EqDecision K} (before : A -> A -> bool) (key : A -> K) k x l :
  (forall a b, before a b = true -> key a <> key b) ->
  List.filter (fun a => bool_decide (key a = k)) (insert_sorted before x l)
  = List.filter (fun a => bool_decide (key a = k)) (x :: l).
Proof.
  intros Hkey. induction l as [|y l IH]; [done|]. cbn [insert_sorted].
  destruct (before y x) eqn:Hyx; [|done].
  cbn [List.filter] in *. rewrite IH. apply Hkey in Hyx.
  by repeat case_bool_decide; try congruence.
Qed.

Lemma py_sorted_stable {A} `{EqDecision K} (before : A -> A -> bool) (key : A -> K) k l :
  (forall a b, before a b = true -> key a <> key b) ->
  List.filter (fun a => bool_decide (key a = k)) (py_sorted before l)
  = List.filter (fun a => bool_decide (key a = k)) l.
Proof.
  intros Hkey. induction l as [|x l IH]; [done|]. unfold py_sorted in *. cbn [foldr].
  rewrite insert_sorted_stable by done. cbn [List.filter]. by rewrite IH.
Qed.

Lemma line_le_not_before l :
  StronglySorted line_le l <-> StronglySorted (fun a b => before_in_playlist b a = false) l.
Proof.
  assert (Heq : forall a b, line_le a b <-> before_in_playlist b a = false).
  { intros a b. unfold line_le, before_in_playlist. rewrite Z.ltb_ge. done. }
  split; induction 1 as [|x l Hl IH Hx]; constructor; try done;
    (eapply Forall_impl; [exact Hx|]); intros b; apply Heq.
Qed.

Lemma py_sorted_line l : StronglySorted line_le (py_sorted before_in_playlist l).
Proof.
  apply line_le_not_before, py_sorted_sorted; unfold before_in_playlist; intros *;
    rewrite ?Z.ltb_lt, ?Z.ltb_ge; lia.
Qed.

Lemma py_sorted_line_id l :
  StronglySorted line_le l -> py_sorted before_in_playlist l = l.
Proof. intros H. by apply py_sorted_id, line_le_not_before. Qed.

(** The playlist [create_playlist] writes is the header and then the entries
    of the audio files it is given, each file once, by line number; files of one
    line keep the order they came in; and files that come by line number are
    listed as they come. *)
Theorem create_playlist_order audio_files :
  exists sorted_files,
    create_playlist audio_files
    = lit "#EXTM3U" ++ [Chr.newline] ++ concat (map playlist_entry sorted_files)
    /\ sorted_files ≡ₚ audio_files
    /\ StronglySorted line_le sorted_files
    /\ (forall n,
          List.filter (fun a => bool_decide (audio_line_number a = n)) sorted_files
          = List.filter (fun a => bool_decide (audio_line_number a = n)) audio_files)
    /\ (StronglySorted line_le audio_files -> sorted_files = audio_files).
Proof.
  exists (py_sorted before_in_playlist audio_files).
  split; [done|]. split; [apply py_sorted_Permutation|]. split; [apply py_sorted_line|].
  split; [|apply py_sorted_line_id].
  intros n. apply (py_sorted_stable before_in_playlist audio_line_number).
  unfold before_in_playlist. intros a b Hlt%Z.ltb_lt. lia.
Qed.

Lemma sublist_StronglySorted {A} (R : relation A) l1 l2 :
  l1 `sublist_of` l2 -> StronglySorted R l2 -> StronglySorted R l1.
Proof.
  induction 1 as [|x l1 l2 Hsub IH|x l1 l2 Hsub IH]; intros H; [done| |].
  - apply StronglySorted_inv in H as [H Hx]. constructor; [by apply IH|].
    rewrite Forall_forall in Hx |- *. intros y Hy. apply Hx. by eapply elem_of_sublist.
  - apply StronglySorted_inv in H as [H _]. by apply IH.
Qed.

Section PlaylistOfRun.
Variable lower : list N -> list N.
Variable up : N -> list N.
Variable alnum : N -> bool.
Variable fold : N -> N -> bool.
Variable config : gmap (list N) TTSConfig.
Variable output_dir : list N.

Lemma planned_chunks_line dialogue :
  Forall (fun planned => audio_line_number planned.1 = entry_line_number dialogue)
    (planned_chunks lower up alnum fold config output_dir dialogue).
Proof.
  apply Forall_forall. intros planned Hin.
  apply list_elem_of_lookup in Hin as [i Hi].
  by apply planned_chunks_lookup in Hi as (_ & _ & ? & _).
Qed.

Lemma plan_sorted dialogue_lines :
  StronglySorted Z.le (map entry_line_number dialogue_lines) ->
  StronglySorted line_le (map fst (plan lower up alnum fold config output_dir dialogue_lines)).
Proof.
  induction dialogue_lines as [|dialogue rest IH]; intros H; [constructor|].
  cbn [map] in H. apply StronglySorted_inv in H as [Hrest Hhere].
  unfold plan. cbn [map concat]. rewrite map_app.
  fold (plan lower up alnum fold config output_dir rest).
  pose proof (planned_chunks_line dialogue) as Hline.
  assert (Hafter : Forall (fun r => (entry_line_number dialogue <= audio_line_number r)%Z)
                     (map fst (plan lower up alnum fold config output_dir rest))).
  { apply Forall_forall. intros r Hr.
    apply list_elem_of_In, in_map_iff in Hr as (planned & <- & Hr).
    apply list_elem_of_In, plan_elem in Hr as (other & i & Hother & Hi).
    apply planned_chunks_lookup in Hi as (_ & _ & -> & _).
    rewrite Forall_forall in Hhere. apply Hhere.
    apply list_elem_of_In, in_map. by apply list_elem_of_In. }
  induction Hline as [|planned chunks Hp Hline IHc]; [by apply IH|].
  cbn [map app]. constructor; [exact IHc|].
  apply Forall_app. split.
  - apply Forall_forall. intros r Hr.
    apply list_elem_of_In, in_map_iff in Hr as (q & <- & Hq).
    rewrite Forall_forall in Hline. apply list_elem_of_In, Hline in Hq.
    unfold line_le. rewrite Hp, Hq. lia.
  - eapply Forall_impl; [exact Hafter|]. intros r Hr. unfold line_le. by rewrite Hp.
Qed.

(** When the dialogue lines come by line number, the playlist of the records
    of a run lists them in the order the run made them. *)
Theorem playlist_follows_generation tts disk dialogue_lines files0 :
  StronglySorted Z.le (map entry_line_number dialogue_lines) ->
  create_playlist
    (generated_files (process_dialogue_file lower up alnum fold config output_dir tts disk
                        (Some (Some dialogue_lines)) files0))
  = lit "#EXTM3U" ++ [Chr.newline] ++
    concat (map playlist_entry
              (generated_files (process_dialogue_file lower up alnum fold config output_dir
                                  tts disk (Some (Some dialogue_lines)) files0))).
Proof.
  intros H. unfold create_playlist. rewrite py_sorted_line_id; [done|].
  rewrite process_dialogue_file_plan.
  destruct (run_spec tts disk (plan lower up alnum fold config output_dir dialogue_lines)
              (mkTtsState files0 [] [])) as (recs & reqs & Hg & _ & Hsub & _).
  cbn [generated_files app] in Hg. rewrite Hg.
  eapply sublist_StronglySorted; [exact Hsub|]. by apply plan_sorted.
Qed.
End PlaylistOfRun.

(** ** The generation summary *)

Lemma total_insert counts s n :
  counts !! s = None -> total (<[ s := n ]> counts) = (n + total counts)%nat.
Proof.
  intros H. unfold total. apply (map_fold_insert_L (fun _ n acc => (n + acc)%nat)); [|done].
  intros. lia.
Qed.

Lemma total_update counts s n m :
  counts !! s = Some n -> (total (<[ s := m ]> counts) + n = total counts + m)%nat.
Proof.
  intros H. rewrite <- (insert_delete_id counts s n H) at 2.
  rewrite <- (insert_delete_eq counts s m).
  rewrite !total_insert by apply lookup_delete_eq. lia.
Qed.

Lemma summary_step_speakers summary audio_file :
  speakers (summary_step summary audio_file)
  = <[ audio_speaker audio_file :=
         S (default 0%nat (speakers summary !! audio_speaker audio_file)) ]> (speakers summary).
Proof.
  unfold summary_step. cbn [speakers].
  destruct (speakers summary !! audio_speaker audio_file) as [n|] eqn:Hs.
  - by rewrite Hs.
  - by rewrite lookup_insert_eq, insert_insert_eq.
Qed.

Lemma summary_step_total summary audio_file :
  total (speakers (summary_step summary audio_file)) = S (total (speakers summary)).
Proof.
  rewrite summary_step_speakers.
  destruct (speakers summary !! audio_speaker audio_file) as [n|] eqn:Hs; simpl.
  - pose proof (total_update _ _ _ (S n) Hs). lia.
  - by rewrite total_insert.
Qed.

Lemma summary_fold audio_files summary :
  let result := fold_left summary_step audio_files summary in
  total_files result = total_files summary
  /\ output_directory result = output_directory summary
  /\ summary_files result = summary_files summary ++ map summary_entry audio_files
  /\ total (speakers result) = (total (speakers summary) + length audio_files)%nat
  /\ forall s, default 0%nat (speakers result !! s)
               = (default 0%nat (speakers summary !! s) + files_of s audio_files)%nat.
Proof.
  revert summary. induction audio_files as [|a rest IH]; intros summary; cbn [fold_left].
  - cbn zeta. rewrite app_nil_r. unfold files_of. cbn [map List.filter length].
    repeat split; try done; intros; lia.
  - destruct (IH (summary_step summary a)) as (Ht & Ho & Hf & Hsum & Hc).
    cbn zeta. rewrite Ht, Ho, Hf, Hsum. repeat split.
    + cbn [summary_step summary_files map]. by rewrite <- app_assoc.
    + rewrite summary_step_total. cbn [length]. lia.
    + intros s. rewrite Hc, summary_step_speakers. unfold files_of. cbn [List.filter].
      case_bool_decide as Hs.
      * subst s. rewrite lookup_insert_eq. simpl. lia.
      * by rewrite lookup_insert_ne.
Qed.

Lemma summary_fold_positive audio_files summary s n :
  (forall s n, speakers summary !! s = Some n -> (0 < n)%nat) ->
  speakers (fold_left summary_step audio_files summary) !! s = Some n -> (0 < n)%nat.
Proof.
  revert summary. induction audio_files as [|a rest IH]; intros summary Hpos; cbn [fold_left].
  - apply Hpos.
  - apply IH. intros s' n'. rewrite summary_step_speakers.
    destruct (decide (audio_speaker a = s')) as [<-|Hne].
    + rewrite lookup_insert_eq. intros [= <-]. lia.
    + rewrite lookup_insert_ne by done. apply Hpos.
Qed.

Lemma preview_length s : (length (preview s) <= 103)%nat.
Proof.
  unfold preview, len. destruct (Z.ltb_spec 100 (Z.of_nat (length s))).
  - rewrite length_app, length_take. change (length (lit "...")) with 3%nat. lia.
  - lia.
Qed.

(** [generate_summary]: [total_files] is the number of audio files; the
    [speakers] table holds, for each speaker with a file, the number of its
    files, and no other key; the counts add up to [total_files]; [files] has one
    entry for each audio file, in order, with a preview of at most 103
    characters. *)
Theorem generate_summary_counts output_dir audio_files :
  total_files (generate_summary output_dir audio_files) = length audio_files
  /\ output_directory (generate_summary output_dir audio_files) = output_dir
  /\ summary_files (generate_summary output_dir audio_files) = map summary_entry audio_files
  /\ (forall s,
        speakers (generate_summary output_dir audio_files) !! s
        = if decide (files_of s audio_files = 0%nat) then None
          else Some (files_of s audio_files))
  /\ total (speakers (generate_summary output_dir audio_files))
     = total_files (generate_summary output_dir audio_files)
  /\ Forall (fun entry => (length (text_preview entry) <= 103)%nat)
       (summary_files (generate_summary output_dir audio_files)).
Proof.
  assert (Hpreview : Forall (fun entry => (length (text_preview entry) <= 103)%nat)
                       (map summary_entry audio_files)).
  { apply Forall_forall. intros entry Hin.
    apply list_elem_of_In, in_map_iff in Hin as (a & <- & _). apply preview_length. }
  revert Hpreview.
  unfold generate_summary.
  destruct (summary_fold audio_files (mkSummary (length audio_files) ∅ output_dir []))
    as (Ht & Ho & Hf & Hsum & Hc). cbn zeta in *.
  rewrite Ht, Ho, Hf, Hsum. cbn [total_files output_directory summary_files speakers app].
  intros Hpreview. repeat split; try done.
  intros s. specialize (Hc s). cbn [speakers] in Hc. rewrite lookup_empty in Hc. cbn in Hc.
  destruct (speakers _ !! s) as [n|] eqn:Hs.
  - apply summary_fold_positive in Hs; [|intros ? ?; cbn [speakers]; by rewrite lookup_empty].
    cbn in Hc. subst n. destruct (decide _); [lia|done].
  - cbn in Hc. destruct (decide _); [done|lia].
Qed.

(** ** The parsing summary *)

Lemma str_ltb_irrefl a : str_ltb a a = false.
Proof. induction a as [|x a IH]; [done|]. simpl. by rewrite N.ltb_irrefl. Qed.

Lemma str_ltb_asym a b : str_ltb a b = true -> str_ltb b a = false.
Proof.
  revert b. induction a as [|x a IH]; intros [|y b]; try done. simpl.
  destruct (N.ltb_spec x y), (N.ltb_spec y x); try done; try lia. apply IH.
Qed.

Lemma str_ltb_trans a b c : str_ltb a b = true -> str_ltb b c = true -> str_ltb a c = true.
Proof.
  revert b c. induction a as [|x a IH]; intros [|y b] [|z c]; try done. simpl.
  destruct (N.ltb_spec x y), (N.ltb_spec y x), (N.ltb_spec y z), (N.ltb_spec z y),
    (N.ltb_spec x z), (N.ltb_spec z x); try done; try lia. apply IH.
Qed.

Lemma str_ltb_total a b : str_ltb a b = false -> str_ltb b a = false -> a = b.
Proof.
  revert b. induction a as [|x a IH]; intros [|y b]; try done. simpl.
  destruct (N.ltb_spec x y), (N.ltb_spec y x); try done.
  intros Hab Hba. f_equal; [lia|by apply IH].
Qed.

Lemma str_ltb_not_before_trans a b c :
  str_ltb b a = false -> str_ltb c b = false -> str_ltb c a = false.
Proof.
  intros Hba Hcb. destruct (str_ltb c a) eqn:Hca; [|done].
  destruct (str_ltb a b) eqn:Hab.
  - by rewrite (str_ltb_trans _ _ _ Hca Hab) in Hcb.
  - rewrite (str_ltb_total _ _ Hab Hba) in Hca. by rewrite Hca in Hcb.
Qed.

Lemma sorted_strings l :
  NoDup l -> StronglySorted (fun a b => str_ltb a b = true) (py_sorted str_ltb l).
Proof.
  intros Hnodup.
  pose proof (py_sorted_sorted str_ltb str_ltb_asym str_ltb_not_before_trans l) as Hs.
  assert (Hnd : NoDup (py_sorted str_ltb l)) by by rewrite py_sorted_Permutation.
  induction Hs as [|x rest Hrest IH Hx]; [constructor|].
  apply NoDup_cons in Hnd as [Hnotin Hnd]. constructor; [by apply IH|].
  rewrite Forall_forall in Hx |- *. intros y Hy. specialize (Hx y Hy). cbn beta in Hx.
  destruct (str_ltb x y) eqn:Hxy; [done|].
  rewrite (str_ltb_total _ _ Hxy Hx) in Hnotin. done.
Qed.

Lemma count_lines_split p q dialogue_lines :
  (forall dl, dl ∈ dialogue_lines -> p dl = negb (q dl)) ->
  (count_lines p dialogue_lines + count_lines q dialogue_lines = length dialogue_lines)%nat.
Proof.
  unfold count_lines. induction dialogue_lines as [|dl rest IH]; intros H; [done|].
  cbn [List.filter length]. rewrite (H dl) by (apply elem_of_cons; by left).
  specialize (IH (fun x Hx => H x (proj2 (elem_of_cons rest x dl) (or_intror Hx)))).
  destruct (q dl); cbn [negb length]; lia.
Qed.

Lemma count_lines_ext p q dialogue_lines :
  (forall dl, dl ∈ dialogue_lines -> p dl = q dl) ->
  count_lines p dialogue_lines = count_lines q dialogue_lines.
Proof.
  unfold count_lines. induction dialogue_lines as [|dl rest IH]; intros H; [done|].
  cbn [List.filter]. rewrite (H dl) by (apply elem_of_cons; by left).
  specialize (IH (fun x Hx => H x (proj2 (elem_of_cons rest x dl) (or_intror Hx)))).
  destruct (q dl); cbn [length]; lia.
Qed.

Lemma count_lines_positive p dialogue_lines dl :
  dl ∈ dialogue_lines -> p dl = true -> (0 < count_lines p dialogue_lines)%nat.
Proof.
  unfold count_lines. intros Hin Hp.
  assert (H : dl ∈ List.filter p dialogue_lines).
  { apply list_elem_of_In, filter_In. split; [by apply list_elem_of_In|done]. }
  destruct (List.filter p dialogue_lines); [by apply elem_of_nil in H|cbn; lia].
Qed.

(** Sum of the per-character counts. *)
Lemma count_lines_chars chars dialogue_lines :
  NoDup chars ->
  foldr (fun char acc => (count_lines (fun dl => bool_decide (speaker dl = char))
                            dialogue_lines + acc)%nat) 0%nat chars
  = count_lines (fun dl => bool_decide (speaker dl ∈ chars)) dialogue_lines.
Proof.
  induction 1 as [|char chars Hnotin Hnodup IH]; cbn [foldr].
  - unfold count_lines. induction dialogue_lines as [|dl rest IHr]; [done|].
    cbn [List.filter]. rewrite bool_decide_eq_false_2; [done|apply not_elem_of_nil].
  - rewrite IH. unfold count_lines. clear IH.
    induction dialogue_lines as [|dl rest IHr]; [done|]. cbn [List.filter].
    rewrite (bool_decide_ext (speaker dl ∈ char :: chars)
               (speaker dl = char \/ speaker dl ∈ chars)) by apply elem_of_cons.
    repeat case_bool_decide; cbn [length]; try lia; try tauto.
    exfalso. apply Hnotin. congruence.
Qed.

Section SummaryFacts.
Variable up : N -> list N.

Lemma parsed_confidence backend all_lines cands i characters dl :
  dl ∈ (attribute_lines up backend all_lines i cands characters).1 ->
  confidence dl = if in_list (speaker dl) [lit "UNKNOWN"; lit "NARRATOR"]
                  then low_confidence else high_confidence.
Proof.
  intros Hin. pose proof (attribute_lines_results up backend all_lines cands i characters) as H.
  apply list_elem_of_lookup in Hin as [k Hk].
  eapply Forall2_lookup_l in H as ([cand j] & _ & _ & _ & _ & Hc); [|exact Hk]. exact Hc.
Qed.

(** [print_summary] after [parse_book] on a fresh parser: the medium
    confidence count is 0; the high and the low counts add up to the number of
    lines, the low one being the number of lines labelled [UNKNOWN] or
    [NARRATOR]; the characters are listed once each in increasing order, each
    with at least one line; and the counts of the characters and the number of
    lines labelled [UNKNOWN], [NARRATOR] or with the empty label add up to the
    number of lines. *)
Theorem print_summary_of_parse_book backend file :
  let dialogue_lines := (parse_book up backend file ∅).1 in
  let report := print_summary (parse_book up backend file ∅).2 dialogue_lines in
  report_lines report = length dialogue_lines
  /\ report_medium report = 0%nat
  /\ (report_high report + report_low report = report_lines report)%nat
  /\ report_low report
     = count_lines (fun dl => in_list (speaker dl) [lit "UNKNOWN"; lit "NARRATOR"])
         dialogue_lines
  /\ length (report_character_lines report) = report_characters report
  /\ StronglySorted (fun a b => str_ltb a b = true) (map fst (report_character_lines report))
  /\ Forall (fun entry => (0 < entry.2)%nat /\ is_character entry.1)
       (report_character_lines report)
  /\ (foldr (fun entry acc => (entry.2 + acc)%nat) 0%nat (report_character_lines report)
      + count_lines (fun dl => in_list (speaker dl) [lit "UNKNOWN"; lit "NARRATOR"; []])
          dialogue_lines
      = report_lines report)%nat.
Proof.
  set (run := parse_book up backend file ∅).
  assert (Hconf : forall dl, dl ∈ run.1 ->
            confidence dl = if in_list (speaker dl) [lit "UNKNOWN"; lit "NARRATOR"]
                            then low_confidence else high_confidence).
  { subst run. destruct file as [text|]; [|intros dl Hdl; by apply elem_of_nil in Hdl].
    intros dl. apply parsed_confidence. }
  assert (Hchars : forall s, s ∈ run.2 <->
            exists dl, dl ∈ run.1 /\ speaker dl = s /\ is_character s).
  { subst run. intros s. destruct file as [text|].
    - cbn [parse_book]. rewrite attribute_lines_characters. split; [|by right].
      intros [Hs|Hs]; [by apply elem_of_empty in Hs|done].
    - cbn [parse_book fst snd]. split; [by intros ?%elem_of_empty|].
      intros (dl & Hdl & _). by apply elem_of_nil in Hdl. }
  assert (Hsorted : forall s, s ∈ py_sorted str_ltb (elements run.2) <-> s ∈ run.2).
  { intros s. by rewrite py_sorted_Permutation, elem_of_elements. }
  assert (Hnodup : NoDup (py_sorted str_ltb (elements run.2))).
  { rewrite py_sorted_Permutation. apply NoDup_elements. }
  generalize dependent run. intros run Hconf Hchars Hsorted Hnodup. cbn zeta.
  unfold print_summary.
  cbn [report_lines report_medium report_high report_low report_characters
       report_character_lines].
  split; [done|]. split.
  { rewrite (count_lines_ext _ (fun _ => false)).
    - unfold count_lines. generalize run.1. intros l. induction l; [done|by cbn].
    - intros dl Hdl. rewrite (Hconf dl Hdl). by destruct (in_list _ _). }
  split.
  { apply count_lines_split. intros dl Hdl. rewrite (Hconf dl Hdl).
    by destruct (in_list _ _). }
  split.
  { apply count_lines_ext. intros dl Hdl. rewrite (Hconf dl Hdl).
    by destruct (in_list _ _). }
  split.
  { rewrite length_map. by rewrite py_sorted_Permutation. }
  split.
  { rewrite map_map. cbn [fst]. rewrite map_id. apply sorted_strings, NoDup_elements. }
  split.
  { apply Forall_forall. intros entry Hentry.
    apply list_elem_of_In, in_map_iff in Hentry as (char & <- & Hchar).
    apply list_elem_of_In, Hsorted, Hchars in Hchar as (dl & Hdl & Hs & Hc).
    cbn [fst snd]. split; [|done].
    apply (count_lines_positive _ _ dl Hdl). by apply bool_decide_eq_true. }
  assert (Hsum : forall chars,
    foldr (fun entry acc => (entry.2 + acc)%nat) 0%nat
      (map (fun char => (char, count_lines (fun dl => bool_decide (speaker dl = char)) run.1))
         chars)
    = foldr (fun char acc => (count_lines (fun dl => bool_decide (speaker dl = char)) run.1
                              + acc)%nat) 0%nat chars).
  { intros chars. induction chars as [|char chars IH]; [done|]. cbn [map foldr snd].
    by rewrite IH. }
  rewrite Hsum, count_lines_chars by done.
  apply count_lines_split. intros dl Hdl.
  apply eq_true_iff_eq. rewrite bool_decide_eq_true, Hsorted, Hchars, is_character_spec.
  split; [by intros (dl' & _ & <- & Hc)|]. intros Hc. by exists dl.
Qed.
End SummaryFacts.

(** ** From the parsed book to the audio files *)

Section MoreRunFacts.
Variable lower : list N -> list N.
Variable up : N -> list N.
Variable alnum : N -> bool.
Variable fold : N -> N -> bool.
Variable config : gmap (list N) TTSConfig.
Variable output_dir : list N.

Lemma planned_chunks_request dialogue i planned :
  planned_chunks lower up alnum fold config output_dir dialogue !! i = Some planned ->
  planned.2 =
    tts_payload lower (audio_text planned.1)
      (voice (get_character_config up config (entry_speaker dialogue)))
      (prompt (get_character_config up config (entry_speaker dialogue)))
      (speed (get_character_config up config (entry_speaker dialogue))).
Proof.
  unfold planned_chunks. destruct (is_empty _); [done|].
  rewrite list_lookup_imap. destruct (chunk_text _ _ !! i) as [chunk|]; [|done].
  by intros [= <-].
Qed.

(** Dialogue lines whose text is whitespace are skipped: no request, no
    record, no file. *)
Theorem process_dialogue_file_blank tts disk dialogue_lines files0 :
  Forall (fun dialogue => Forall (fun c => isspace c = true) (entry_text dialogue))
    dialogue_lines ->
  process_dialogue_file lower up alnum fold config output_dir tts disk
    (Some (Some dialogue_lines)) files0
  = mkTtsState files0 [] [].
Proof.
  intros H. rewrite process_dialogue_file_plan.
  replace (plan lower up alnum fold config output_dir dialogue_lines) with
    (@nil (AudioFile * tts_request)); [done|].
  induction H as [|dialogue rest Hd _ IH]; [done|]. unfold plan in *. cbn [map concat].
  rewrite <- IH, app_nil_r. unfold planned_chunks. by rewrite (clean_text_blank fold _ Hd).
Qed.

(** Every request of a run is for a chunk of the cleaned text of a dialogue line
    whose file was missing when the run began; it carries the voice of the
    speaker's configuration in lower case and its speed, and the prompt only
    when that is not empty. *)
Theorem process_dialogue_file_requests tts disk dialogue_lines files0 :
  Forall (fun request =>
     exists dialogue (chunk_index : nat),
       dialogue ∈ dialogue_lines /\
       chunk_text (clean_text_for_tts fold (entry_text dialogue)) 4000 !! chunk_index
         = Some (request_input request) /\
       files0 !! joinpath output_dir
                   (generate_filename alnum (entry_speaker dialogue)
                      (entry_line_number dialogue) (Z.of_nat chunk_index)) = None /\
       request_voice request
         = lower (voice (get_character_config up config (entry_speaker dialogue))) /\
       request_speed request
         = speed (get_character_config up config (entry_speaker dialogue)) /\
       request_prompt request
         = (if is_empty (prompt (get_character_config up config (entry_speaker dialogue)))
            then None
            else Some (prompt (get_character_config up config (entry_speaker dialogue)))))
    (requests (process_dialogue_file lower up alnum fold config output_dir tts disk
                 (Some (Some dialogue_lines)) files0)).
Proof.
  rewrite process_dialogue_file_plan.
  destruct (run_spec tts disk (plan lower up alnum fold config output_dir dialogue_lines)
              (mkTtsState files0 [] [])) as (recs & reqs & _ & Hq & _ & Hsub & _).
  cbn [requests files app] in *. rewrite Hq.
  apply Forall_forall. intros request Hin.
  pose proof (elem_of_sublist _ _ _ Hin Hsub) as Hp.
  apply list_elem_of_In, in_map_iff in Hp as (planned & <- & Hp).
  apply filter_In in Hp as [Hp Hmiss].
  apply list_elem_of_In, plan_elem in Hp as (dialogue & i & Hd & Hi).
  pose proof (planned_chunks_request _ _ _ Hi) as Hr.
  apply planned_chunks_lookup in Hi as (Hpath & Hs & Hn & Hc).
  exists dialogue, i. rewrite Hr. cbn [tts_payload request_input request_voice request_speed
                                        request_prompt].
  repeat (split; [done|]). split; [|done].
  unfold missing in Hmiss. rewrite Hpath in Hmiss.
  apply negb_true_iff, bool_decide_eq_false in Hmiss.
  by apply eq_None_not_Some.
Qed.

(** The two programs in a row: for the dialogue [save_results] writes after
    [parse_book], the records of the synthesis name distinct files and come in
    the order of their line numbers, so the playlist lists them as they were
    generated. *)
Theorem saved_dialogue_audio backend content characters tts disk files0 :
  let parsed := parse_book up backend (Some content) characters in
  let run :=
    process_dialogue_file lower up alnum fold config output_dir tts disk
      (load_dialogue (save_results parsed.2 parsed.1)) files0 in
  NoDup (map file_path (generated_files run))
  /\ StronglySorted line_le (generated_files run)
  /\ create_playlist (generated_files run)
     = lit "#EXTM3U" ++ [Chr.newline] ++ concat (map playlist_entry (generated_files run)).
Proof.
  cbn zeta. unfold load_dialogue, save_results. cbn [saved_dialogue]. rewrite map_map.
  cbn [saved_speaker saved_line_number saved_text].
  set (dialogue_lines := map _ (parse_book up backend (Some content) characters).1).
  assert (Hlines : StronglySorted Z.lt (map entry_line_number dialogue_lines)).
  { subst dialogue_lines. rewrite map_map. cbn [entry_line_number parse_book].
    change (map (fun dl => line_number dl) ?l) with (map line_number l).
    rewrite attribute_lines_line_numbers. apply scan_lines_sorted. }
  assert (Hle : StronglySorted Z.le (map entry_line_number dialogue_lines)).
  { clear -Hlines. induction Hlines as [|n l Hl IH Hn]; constructor; [done|].
    eapply Forall_impl; [exact Hn|]. intros; cbn beta in *; lia. }
  assert (Hnodup : NoDup (map entry_line_number dialogue_lines)).
  { clear -Hlines. induction Hlines as [|n l Hl IH Hn]; constructor; [|done].
    intros Hin. rewrite Forall_forall in Hn. specialize (Hn n Hin). lia. }
  rewrite process_dialogue_file_plan.
  destruct (run_spec tts disk (plan lower up alnum fold config output_dir dialogue_lines)
              (mkTtsState files0 [] [])) as (recs & reqs & Hg & _ & Hsub & _).
  cbn [generated_files app] in Hg. rewrite Hg.
  assert (Hsorted : StronglySorted line_le recs).
  { eapply sublist_StronglySorted; [exact Hsub|]. by apply plan_sorted. }
  split.
  { eapply sublist_NoDup; [|apply sublist_map; exact Hsub].
    rewrite map_map. by apply plan_paths_NoDup. }
  split; [exact Hsorted|].
  unfold create_playlist. by rewrite py_sorted_line_id.
Qed.
End MoreRunFacts.

(** ** File names in the order of strings *)

(** Strings of one length that are in order stay in order whatever follows. *)
Lemma str_ltb_app a b x y :
  length a = length b -> str_ltb a b = true -> str_ltb (a ++ x) (b ++ y) = true.
Proof.
  revert b. induction a as [|c a IH]; intros [|d b] Hlen Hlt; try done.
  cbn [app str_ltb] in *. destruct (c <? d); [done|]. destruct (d <? c); [done|].
  apply IH; [by injection Hlen | done].
Qed.

(** The four-digit numbers, one after the other, are in order as strings. *)
Lemma format_d_4_next :
  forallb (fun i => (length (format_d 4 i) =? 4)%nat
                    && (length (format_d 4 (i + 1)) =? 4)%nat
                    && str_ltb (format_d 4 i) (format_d 4 (i + 1)))
    (map Z.of_nat (seq 0 (Z.to_nat 9999))) = true.
Proof. vm_compute. reflexivity. Qed.

Lemma format_d_4_order n m :
  (0 <= n < m)%Z -> (m <= 9999)%Z ->
  length (format_d 4 n) = length (format_d 4 m)
  /\ str_ltb (format_d 4 n) (format_d 4 m) = true.
Proof.
  intros Hn Hm.
  assert (Hstep : forall i, (0 <= i < 9999)%Z ->
            length (format_d 4 i) = 4%nat
            /\ length (format_d 4 (i + 1)) = 4%nat
            /\ str_ltb (format_d 4 i) (format_d 4 (i + 1)) = true).
  { intros i Hi. pose proof format_d_4_next as H. rewrite forallb_forall in H.
    specialize (H i). rewrite !andb_true_iff, !Nat.eqb_eq in H.
    destruct H as [[? ?] ?]; [|done].
    apply in_map_iff. exists (Z.to_nat i). split; [lia|]. apply in_seq. lia. }
  replace m with (n + 1 + Z.of_nat (Z.to_nat (m - n - 1)))%Z in * by lia.
  generalize dependent (Z.to_nat (m - n - 1)). clear m.
  intros d. induction d as [|d IH]; intros Hlt Hbound.
  - rewrite Z.add_0_r. destruct (Hstep n) as (H1 & H2 & H3); [lia|].
    split; [congruence | done].
  - destruct IH as [Hlen Hord]; [lia|lia|].
    destruct (Hstep (n + 1 + Z.of_nat d)%Z) as (H1 & H2 & H3); [lia|].
    replace (n + 1 + Z.of_nat (S d))%Z with (n + 1 + Z.of_nat d + 1)%Z by lia.
    split; [congruence|]. by eapply str_ltb_trans.
Qed.

(** File names sort as their lines: for line numbers from 0 to 9999 the name
    of the smaller line comes first in the order of strings, whatever the
    speakers and the chunk indices. *)
Theorem generate_filename_sorts_by_line alnum speaker1 speaker2 n m chunk1 chunk2 :
  (0 <= n < m)%Z -> (m <= 9999)%Z ->
  str_ltb (generate_filename alnum speaker1 n chunk1)
          (generate_filename alnum speaker2 m chunk2) = true.
Proof.
  intros Hn Hm. rewrite !generate_filename_parts.
  destruct (format_d_4_order n m Hn Hm) as [Hlen Hlt]. by apply str_ltb_app.
Qed.

(** The theorem at lines 9 and 10. *)
Lemma generate_filename_sorts_by_line_witness :
  ((0 <= 9 < 10)%Z /\ (10 <= 9999)%Z)
  /\ str_ltb (generate_filename latin1_alnum (lit "Bob") 9 2)
             (generate_filename latin1_alnum (lit "Alice") 10 0) = true.
Proof.
  split; [lia|].
  apply (generate_filename_sorts_by_line latin1_alnum (lit "Bob") (lit "Alice") 9 10 2 0); lia.
Defined.

(** ** The theorems at the sample dialogue *)

(** The theorem at the sample dialogue, with both files in place. *)
Lemma process_dialogue_file_resume_witness :
  Forall (fun planned =>
            is_Some (({[ lit "out/0001_ALICE.mp3" := []; lit "out/0002_BOB.mp3" := [] ]}
                      : gmap (list N) (list Byte.byte)) !! file_path planned.1))
    (plan ascii_lower_only ascii_upper_only latin1_alnum no_unicode_fold ∅ (lit "out")
       sample_dialogue)
  /\ requests
       (process_dialogue_file ascii_lower_only ascii_upper_only latin1_alnum no_unicode_fold
          ∅ (lit "out") sample_tts sample_disk (Some (Some sample_dialogue))
          {[ lit "out/0001_ALICE.mp3" := []; lit "out/0002_BOB.mp3" := [] ]})
     = [].
Proof.
  assert (H : Forall (fun planned =>
            is_Some (({[ lit "out/0001_ALICE.mp3" := []; lit "out/0002_BOB.mp3" := [] ]}
                      : gmap (list N) (list Byte.byte)) !! file_path planned.1))
    (plan ascii_lower_only ascii_upper_only latin1_alnum no_unicode_fold ∅ (lit "out")
       sample_dialogue)).
  { repeat constructor; vm_compute; eexists; reflexivity. }
  split; [exact H|].
  rewrite (process_dialogue_file_resume ascii_lower_only ascii_upper_only latin1_alnum
             no_unicode_fold ∅ (lit "out") sample_tts sample_disk sample_dialogue _ H).
  reflexivity.
Defined.

(** The theorem at the sample dialogue, in an empty output directory. *)
Lemma process_dialogue_file_fresh_witness :
  (NoDup (map entry_line_number sample_dialogue)
   /\ Forall (fun planned => (∅ : gmap (list N) (list Byte.byte)) !! file_path planned.1 = None)
        (plan ascii_lower_only ascii_upper_only latin1_alnum no_unicode_fold ∅ (lit "out")
           sample_dialogue)
   /\ (forall k request, exists b content, sample_tts k request = Answered 200 (b :: content))
   /\ (forall k, sample_disk k = Written))
  /\ map file_path
       (generated_files
          (process_dialogue_file ascii_lower_only ascii_upper_only latin1_alnum
             no_unicode_fold ∅ (lit "out") sample_tts sample_disk
             (Some (Some sample_dialogue)) ∅))
     = [lit "out/0001_ALICE.mp3"; lit "out/0002_BOB.mp3"].
Proof.
  assert (H1 : NoDup (map entry_line_number sample_dialogue)).
  { repeat constructor; vm_compute; intros H; repeat (apply elem_of_cons in H as [H|H]; [discriminate|]); by apply elem_of_nil in H. }
  assert (H2 : Forall (fun planned =>
                 (∅ : gmap (list N) (list Byte.byte)) !! file_path planned.1 = None)
                 (plan ascii_lower_only ascii_upper_only latin1_alnum no_unicode_fold ∅
                    (lit "out") sample_dialogue)).
  { apply Forall_forall. intros planned _. apply lookup_empty. }
  assert (H3 : forall k request, exists b content,
                 sample_tts k request = Answered 200 (b :: content)).
  { intros k request. by eexists _, _. }
  assert (H4 : forall k, sample_disk k = Written) by done.
  split; [done|].
  destruct (process_dialogue_file_fresh ascii_lower_only ascii_upper_only latin1_alnum
              no_unicode_fold ∅ (lit "out") sample_tts sample_disk sample_dialogue ∅
              H1 H2 H3 H4) as [-> _].
  reflexivity.
Defined.

(** The theorem at the sample dialogue. *)
Lemma process_dialogue_file_distinct_paths_witness :
  NoDup (map entry_line_number sample_dialogue)
  /\ NoDup (map file_path
              (generated_files
                 (process_dialogue_file ascii_lower_only ascii_upper_only latin1_alnum
                    no_unicode_fold ∅ (lit "out") sample_tts sample_disk
                    (Some (Some sample_dialogue)) ∅))).
Proof.
  assert (H1 : NoDup (map entry_line_number sample_dialogue)).
  { repeat constructor; vm_compute; intros H; repeat (apply elem_of_cons in H as [H|H]; [discriminate|]); by apply elem_of_nil in H. }
  split; [exact H1|].
  exact (process_dialogue_file_distinct_paths ascii_lower_only ascii_upper_only latin1_alnum
           no_unicode_fold ∅ (lit "out") sample_tts sample_disk sample_dialogue ∅ H1).
Defined.

(** The theorem at a dialogue of one line of three spaces. *)
Lemma process_dialogue_file_blank_witness :
  Forall (fun dialogue => Forall (fun c => isspace c = true) (entry_text dialogue))
    [mkDialogueEntry (lit "ALICE") 1 (lit "   ")]
  /\ process_dialogue_file ascii_lower_only ascii_upper_only latin1_alnum no_unicode_fold
       ∅ (lit "out") sample_tts sample_disk
       (Some (Some [mkDialogueEntry (lit "ALICE") 1 (lit "   ")])) ∅
     = mkTtsState ∅ [] [].
Proof.
  assert (H : Forall (fun dialogue => Forall (fun c => isspace c = true) (entry_text dialogue))
                [mkDialogueEntry (lit "ALICE") 1 (lit "   ")])
    by (repeat constructor).
  split; [exact H|].
  exact (process_dialogue_file_blank ascii_lower_only ascii_upper_only latin1_alnum
           no_unicode_fold ∅ (lit "out") sample_tts sample_disk _ ∅ H).
Defined.

(** The theorem at the sample dialogue. *)
Lemma playlist_follows_generation_witness :
  StronglySorted Z.le (map entry_line_number sample_dialogue)
  /\ create_playlist
       (generated_files
          (process_dialogue_file ascii_lower_only ascii_upper_only latin1_alnum
             no_unicode_fold ∅ (lit "out") sample_tts sample_disk
             (Some (Some sample_dialogue)) ∅))
     = lit "#EXTM3U" ++ [Chr.newline]
       ++ lit "#EXTINF:-1,ALICE - Line 1" ++ [Chr.newline]
       ++ lit "0001_ALICE.mp3" ++ [Chr.newline]
       ++ lit "#EXTINF:-1,BOB - Line 2" ++ [Chr.newline]
       ++ lit "0002_BOB.mp3" ++ [Chr.newline].
Proof.
  assert (H : StronglySorted Z.le (map entry_line_number sample_dialogue)).
  { repeat constructor. vm_compute. discriminate. }
  split; [exact H|].
  rewrite (playlist_follows_generation ascii_lower_only ascii_upper_only latin1_alnum
             no_unicode_fold ∅ (lit "out") sample_tts sample_disk sample_dialogue ∅ H).
  vm_compute. reflexivity.
Defined.

(** ** The sample run *)

Example scan_sample_book :
  extract_potential_dialogue sample_book =
  [ (lit "Alice said, " ++ [Chr.dquote] ++ lit "I'm leaving." ++ [Chr.dquote], 1%Z);
    (lit "Bob frowned. " ++ [Chr.dquote] ++ lit "Don't go," ++ [Chr.dquote] ++ lit " he said.",
     2%Z) ].
Proof. reflexivity. Qed.

Example parse_sample_book :
  parse_book ascii_upper_only sample_backend (Some sample_book) ∅ =
  ([ mkDialogueLine (lit "Alice said, " ++ [Chr.dquote] ++ lit "I'm leaving." ++ [Chr.dquote])
       (lit "ALICE") 1 high_confidence;
     mkDialogueLine (lit "Bob frowned. " ++ [Chr.dquote] ++ lit "Don't go," ++ [Chr.dquote]
                     ++ lit " he said.")
       (lit "BOB") 2 high_confidence ],
   {[ lit "ALICE"; lit "BOB" ]}).
Proof. vm_compute. reflexivity. Qed.

Example name_sample_files :
  generate_filename latin1_alnum (lit "ALICE") 1 0 = lit "0001_ALICE.mp3"
  /\ generate_filename latin1_alnum (lit "BOB") 2 0 = lit "0002_BOB.mp3"
  /\ generate_filename latin1_alnum (lit "Bob!") 12 1 = lit "0012_Bob__chunk_01.mp3".
Proof. repeat split. Qed.

(** Past four digits the names no longer sort as the lines. *)
Example name_order_past_four_digits :
  str_ltb (generate_filename latin1_alnum (lit "ALICE") 10000 0)
          (generate_filename latin1_alnum (lit "ALICE") 9999 0) = true.
Proof. reflexivity. Qed.

Example split_sample_sentences :
  split_sentences (lit "Hi there. How are  you?  Fine! ok. ") =
  [lit "Hi there."; lit "How are  you?"; lit "Fine!"; lit "ok."; []].
Proof. reflexivity. Qed.

(** With a maximum of 12 the second sentence, of 13 characters, is a chunk of
    its own. *)
Example chunk_sample_text :
  chunk_text (lit "Hi there. How are  you?  Fine! ok. ") 12 =
  [lit "Hi there."; lit "How are  you?"; lit "Fine! ok."]
  /\ chunk_text (lit "Hi there. How are  you?  Fine! ok. ") 4000 =
     [lit "Hi there. How are  you?  Fine! ok. "].
Proof. split; reflexivity. Qed.

(** Cleaning removes the quote at the end and the tag [he said] with the
    whitespace around it, also where the letters of the tag end a longer word. *)
Example clean_sample_texts :
  map (fun dialogue => clean_text_for_tts no_unicode_fold (entry_text dialogue))
    sample_dialogue
  = [ lit "Alice said, " ++ [Chr.dquote] ++ lit "I'm leaving.";
      lit "Bob frowned. " ++ [Chr.dquote] ++ lit "Don't go," ++ [Chr.dquote] ++ lit "." ]
  /\ clean_text_for_tts no_unicode_fold
       ([Chr.dquote] ++ lit "Stay," ++ [Chr.dquote] ++ lit " said John quietly.")
     = lit "Stay," ++ [Chr.dquote] ++ lit "quietly."
  /\ clean_text_for_tts no_unicode_fold (lit "the said man") = lit "tman".
Proof. repeat split; vm_compute; reflexivity. Qed.

Example synthesize_sample_dialogue :
  map (fun audio_file => (file_path audio_file, audio_text audio_file))
    (generated_files
       (process_dialogue_file ascii_lower_only ascii_upper_only latin1_alnum no_unicode_fold
          ∅ (lit "out") sample_tts sample_disk (Some (Some sample_dialogue)) ∅))
  = [ (lit "out/0001_ALICE.mp3",
       lit "Alice said, " ++ [Chr.dquote] ++ lit "I'm leaving.");
      (lit "out/0002_BOB.mp3",
       lit "Bob frowned. " ++ [Chr.dquote] ++ lit "Don't go," ++ [Chr.dquote] ++ lit ".") ]
  /\ map request_voice
       (requests
          (process_dialogue_file ascii_lower_only ascii_upper_only latin1_alnum
             no_unicode_fold ∅ (lit "out") sample_tts sample_disk
             (Some (Some sample_dialogue)) ∅))
     = [lit "alloy"; lit "alloy"].
Proof. split; vm_compute; reflexivity. Qed.

Example resolve_sample_voices :
  get_character_config ascii_upper_only
    (load_config ascii_upper_only
       (Some ([mkVoiceEntry (lit "Alice") (lit "nova") None None],
              Some (mkVoiceEntry [] (lit "echo") None None))))
    (lit "alice")
  = mkTTSConfig (lit "nova") [] 1.0%float
  /\ get_character_config ascii_upper_only
       (load_config ascii_upper_only
          (Some ([mkVoiceEntry (lit "Alice") (lit "nova") None None],
                 Some (mkVoiceEntry [] (lit "echo") None None))))
       (lit "Bob")
     = mkTTSConfig (lit "echo") [] 1.0%float.
Proof. split; vm_compute; reflexivity. Qed.
